(** * Otman: gesture pipeline, mode machine, animator and pointer selector

    Shallow embedding of [src/types.ts], [src/services/handTrackingService.ts]
    ([HandTrackingService.detectGesture]), [src/components/HandController.tsx]
    (the [onResults] stabilizer), [src/App.tsx] ([onHandUpdateProxy],
    [clearPhotos]) and [src/components/Experience.tsx] (the animator frames and
    the selection frame).

    JavaScript numbers are modelled as real numbers ([R]); [Math.hypot] is
    the Euclidean norm written with [sqrt].  A JavaScript exception is
    modelled as [None] where the code can throw. *)

From Stdlib Require Import List Bool Arith Lia ZArith.
From Stdlib Require String.
From Stdlib Require Import Reals Lra.
From Stdlib Require Import Permutation.
Import ListNotations.
Open Scope R_scope.

(** ** [src/types.ts] *)

Inductive AppState := TREE | SCATTER | ZOOM.

Inductive HandGesture := NONE | FIST | OPEN_PALM | TWO_FINGERS.

Definition AppState_eq_dec (a b : AppState) : {a = b} + {a <> b}.
Proof. decide equality. Defined.

Definition HandGesture_eq_dec (a b : HandGesture) : {a = b} + {a <> b}.
Proof. decide equality. Defined.

Definition gesture_eqb (a b : HandGesture) : bool :=
  if HandGesture_eq_dec a b then true else false.

Definition appstate_eqb (a b : AppState) : bool :=
  if AppState_eq_dec a b then true else false.

(** A normalized 2D landmark point [{x, y}]. *)
Record Point := mkPoint { x : R; y : R }.

(** [HandTrackingResult]: the stabilized hand state. *)
Record HandTrackingResult := mkResult {
  gesture : HandGesture;
  position : R * R;
  isPresent : bool
}.

Record Vec3 := mkVec3 { vx : R; vy : R; vz : R }.

(** [ParticleData] (the fields the frames read). [id] is a JS number. *)
Record ParticleData := mkParticle {
  id : R;
  initialPos : Vec3;
  treePos : Vec3;
  scatterPos : Vec3;
  scale : R;
  rotationSpeed : Vec3
}.

(** JavaScript [a < b] on numbers, as a boolean. *)
Definition Rltb (a b : R) : bool := if Rlt_dec a b then true else false.

(** ** [HandTrackingService.detectGesture] *)

(** [Math.hypot(p1.x - p2.x, p1.y - p2.y)] *)
Definition dist (p1 p2 : Point) : R :=
  sqrt ((x p1 - x p2) * (x p1 - x p2) + (y p1 - y p2) * (y p1 - y p2)).

(** [isFingerFolded(tipIdx, pipIdx)]; reading [.x] of a missing landmark
    throws a [TypeError], modelled as [None]. *)
Definition isFingerFolded (landmarks : list Point) (wrist : Point)
    (tipIdx pipIdx : nat) : option bool :=
  match nth_error landmarks tipIdx with
  | None => None
  | Some tip =>
      match nth_error landmarks pipIdx with
      | None => None
      | Some pip =>
          let dTip := dist tip wrist in
          let dPip := dist pip wrist in
          Some (Rltb dTip (dPip * (11 / 10)))
      end
  end.

Definition b2n (b : bool) : nat := if b then 1%nat else 0%nat.

(** [landmarks] is [None] for an absent ([undefined]/[null]) argument. *)
Definition detectGesture (landmarks : option (list Point)) : option HandGesture :=
  match landmarks with
  | None => Some NONE
  | Some [] => Some NONE
  | Some ((wrist :: _) as l) =>
      match isFingerFolded l wrist 8 6, isFingerFolded l wrist 12 10,
            isFingerFolded l wrist 16 14, isFingerFolded l wrist 20 18 with
      | Some isIndexFolded, Some isMiddleFolded,
        Some isRingFolded, Some isPinkyFolded =>
          if negb isIndexFolded && negb isMiddleFolded && isRingFolded && isPinkyFolded
          then Some TWO_FINGERS
          else
            let foldedCount :=
              (b2n isIndexFolded + b2n isMiddleFolded + b2n isRingFolded
               + b2n isPinkyFolded)%nat in
            if (3 <=? foldedCount)%nat then Some FIST
            else if (foldedCount <=? 1)%nat then Some OPEN_PALM
            else Some OPEN_PALM
      | _, _, _, _ => None
      end
  end.

(** The classification rule in the words of the specification (4.1). *)
Definition folded_spec (l : list Point) (tip pip : nat) : bool :=
  let d := mkPoint 0 0 in
  Rltb (dist (nth tip l d) (nth 0 l d)) (11 / 10 * dist (nth pip l d) (nth 0 l d)).

Definition classify_spec (index middle ring pinky : bool) : HandGesture :=
  if negb index && negb middle && ring && pinky then TWO_FINGERS
  else if (3 <=? b2n index + b2n middle + b2n ring + b2n pinky)%nat then FIST
  else OPEN_PALM.

(** Replace the landmark at index [i] (no effect out of range). *)
Fixpoint set_nth {A} (i : nat) (v : A) (l : list A) : list A :=
  match l, i with
  | [], _ => []
  | _ :: t, O => v :: t
  | h :: t, S i' => h :: set_nth i' v t
  end.

(** ** [HandController] [onResults]: the signal stabilizer *)

(** The three refs the callback threads: [prevPositionRef],
    [gestureHistoryRef] and [lastEmittedGestureRef]. *)
Record Stabilizer := mkStab {
  prevPosition : R * R;
  gestureHistory : list HandGesture;
  lastEmittedGesture : HandGesture
}.

Definition stab_init : Stabilizer := mkStab (1/2, 1/2) [] NONE.

(** A raw frame after landmark extraction: [None] when no hand was
    detected, otherwise the raw [gesture], [rawX] and [rawY]. *)
Definition RawFrame := option (HandGesture * R * R).

Definition smoothingFactor : R := 1 / 10.

(** [acc[g] = (acc[g] || 0) + 1] on a JS object: the value of an existing
    key is updated in place, a new key is appended (string keys keep their
    insertion order). *)
Fixpoint count_add (acc : list (HandGesture * nat)) (g : HandGesture)
    : list (HandGesture * nat) :=
  match acc with
  | [] => [(g, 1%nat)]
  | (k, n) :: t => if gesture_eqb k g then (k, S n) :: t else (k, n) :: count_add t g
  end.

Definition counts_of (h : list HandGesture) : list (HandGesture * nat) :=
  fold_left count_add h [].

(** [counts[k]] for a key that is present. *)
Fixpoint lookup (acc : list (HandGesture * nat)) (k : HandGesture) : nat :=
  match acc with
  | [] => 0%nat
  | (k', n) :: t => if gesture_eqb k' k then n else lookup t k
  end.

(** [Object.keys(counts).reduce((a, b) => counts[a] > counts[b] ? a : b)];
    [reduce] of an empty array throws, modelled as [None]. *)
Definition dominant_of (counts : list (HandGesture * nat)) : option HandGesture :=
  match map fst counts with
  | [] => None
  | k0 :: ks =>
      Some (fold_left (fun a b => if (lookup counts b <? lookup counts a)%nat then a else b)
              ks k0)
  end.

(** [push] then [shift] when longer than 5. *)
Definition push_history (h : list HandGesture) (g : HandGesture) : list HandGesture :=
  let h1 := h ++ [g] in
  if (5 <? length h1)%nat then tl h1 else h1.

(** One invocation of the callback: the new refs and the emitted result. *)
Definition stabilize (s : Stabilizer) (f : RawFrame) : Stabilizer * HandTrackingResult :=
  match f with
  | Some (g, rawX, rawY) =>
      let '(px, py) := prevPosition s in
      let smoothX := px + (rawX - px) * smoothingFactor in
      let smoothY := py + (rawY - py) * smoothingFactor in
      let hist := push_history (gestureHistory s) g in
      let counts := counts_of hist in
      let emitted :=
        match dominant_of counts with
        | Some dominant =>
            if (3 <=? lookup counts dominant)%nat then dominant else lastEmittedGesture s
        | None => lastEmittedGesture s (* unreachable: [hist] was just pushed to *)
        end in
      (mkStab (smoothX, smoothY) hist emitted,
       mkResult emitted (smoothX, smoothY) true)
  | None =>
      (mkStab (prevPosition s) [] NONE,
       mkResult NONE (prevPosition s) false)
  end.

Definition stab_run (s : Stabilizer) (fs : list RawFrame) : Stabilizer :=
  fold_left (fun s f => fst (stabilize s f)) fs s.

(** The history window of the specification: the last (at most) 5 labels. *)
Definition last_n {A} (n : nat) (l : list A) : list A := skipn (length l - n) l.

(** ** [App]: interaction state, [onHandUpdateProxy] and [clearPhotos] *)

(** The React state of [App] with the refs it keeps in sync
    ([appStateRef], [photosRef]) identified with the state they mirror. *)
Record AppModel := mkApp {
  appState : AppState;
  photos : list String.string;
  isHandPresent : bool;
  currentGesture : HandGesture;
  activePhotoIndex : nat;
  handData : HandTrackingResult
}.

Definition app_init : AppModel :=
  mkApp TREE [] false NONE 0 (mkResult NONE (1/2, 1/2) false).

(** The gesture state machine inside the [setCurrentGesture] updater. *)
Definition gesture_transition (currentAppState : AppState) (photoCount : nat)
    (result : HandTrackingResult) : AppState :=
  if isPresent result then
    match gesture result with
    | FIST => if appstate_eqb currentAppState TREE then currentAppState else TREE
    | OPEN_PALM => if appstate_eqb currentAppState SCATTER then currentAppState else SCATTER
    | TWO_FINGERS =>
        if appstate_eqb currentAppState SCATTER && (0 <? photoCount)%nat
        then ZOOM else currentAppState
    | NONE => currentAppState
    end
  else currentAppState.

Definition onHandUpdateProxy (a : AppModel) (result : HandTrackingResult) : AppModel :=
  let present := isPresent result in
  if gesture_eqb (currentGesture a) (gesture result) then
    mkApp (appState a) (photos a) present (currentGesture a) (activePhotoIndex a) result
  else
    mkApp (gesture_transition (appState a) (length (photos a)) result)
          (photos a) present (gesture result) (activePhotoIndex a) result.

Definition clearPhotos (a : AppModel) : AppModel :=
  mkApp (appState a) [] (isHandPresent a) (currentGesture a) 0 (handData a).

(** Capture tick of the whole pipeline: the stabilizer's output is handed
    to [onHandUpdateProxy]. *)
Definition capture_tick (st : Stabilizer * AppModel) (f : RawFrame) : Stabilizer * AppModel :=
  let '(s, a) := st in
  let '(s', r) := stabilize s f in
  (s', onHandUpdateProxy a r).

(** The mode machine in the words of the specification (4.3). *)
Definition mode_spec (mode : AppState) (prevG g : HandGesture) (photoCount : nat) : AppState :=
  if gesture_eqb prevG g then mode
  else match g with
       | FIST => TREE
       | OPEN_PALM => SCATTER
       | TWO_FINGERS =>
           match mode with
           | SCATTER => if (0 <? photoCount)%nat then ZOOM else mode
           | _ => mode
           end
       | NONE => mode
       end.

(** ** [Experience]: the selection frame (lines 353-382) *)

Section Selection.

(** [vec3Ref.current.project(state.camera)]: the active camera's projection
    to normalized device coordinates (x, y). *)
Variable project : Vec3 -> R * R.

(** The [photoParticles.forEach] loop, threading [minDist] ([None] stands
    for [Infinity]) and [closestIndex]. *)
Fixpoint select_loop (mode : AppState) (ndcX ndcY : R) (ps : list ParticleData)
    (i : Z) (acc : option R * Z) : option R * Z :=
  match ps with
  | [] => acc
  | p :: t =>
      let v := if appstate_eqb mode TREE then treePos p else scatterPos p in
      let '(qx, qy) := project v in
      let dx := qx - ndcX in
      let dy := qy - ndcY in
      let d := sqrt (dx * dx + dy * dy) in
      let acc' :=
        match fst acc with
        | None => (Some d, i)
        | Some minDist => if Rltb d minDist then (Some d, i) else acc
        end in
      select_loop mode ndcX ndcY t (i + 1)%Z acc'
  end.

(** One selection frame: [Some i] when [onPhotoSelect(i)] is called. *)
Definition select_frame (appState : AppState) (handData : HandTrackingResult)
    (photoParticles : list ParticleData) : option Z :=
  if appstate_eqb appState ZOOM then None
  else if negb (isPresent handData) || (length photoParticles =? 0)%nat then None
  else
    let '(hx, hy) := position handData in
    let ndcX := (hx * 2) - 1 in
    let ndcY := - (hy * 2) + 1 in
    let '(minDist, closestIndex) :=
      select_loop appState ndcX ndcY photoParticles 0 (None, (-1)%Z) in
    match minDist with
    | Some m => if Rltb m (4 / 10) && negb (closestIndex =? -1)%Z then Some closestIndex else None
    | None => None
    end.

(** The quantities of the specification (4.5): the mode-relevant anchor,
    the pointer's device coordinates and the projected distance. *)
Definition anchor (mode : AppState) (p : ParticleData) : Vec3 :=
  match mode with TREE => treePos p | _ => scatterPos p end.

Definition sel_distance (mode : AppState) (hand : HandTrackingResult) (p : ParticleData) : R :=
  let '(px, py) := position hand in
  let '(qx, qy) := project (anchor mode p) in
  sqrt ((qx - (2 * px - 1)) ^ 2 + (qy - (1 - 2 * py)) ^ 2).

Definition loop_dist (mode : AppState) (ndcX ndcY : R) (p : ParticleData) : R :=
  let '(qx, qy) := project (if appstate_eqb mode TREE then treePos p else scatterPos p) in
  sqrt ((qx - ndcX) * (qx - ndcX) + (qy - ndcY) * (qy - ndcY)).

(** Loop invariant: [minDist] is the distance of the object at
    [closestIndex], and no processed object is closer. *)
Definition sel_inv (mode : AppState) (ndcX ndcY : R) (done : list ParticleData)
    (acc : option R * Z) : Prop :=
  exists m j p, acc = (Some m, Z.of_nat j) /\ nth_error done j = Some p /\
    loop_dist mode ndcX ndcY p = m /\
    forall q, In q done -> m <= loop_dist mode ndcX ndcY q.

End Selection.

(** ** [Experience]: the object animator *)

(** [THREE.MathUtils.lerp(x, y, t)] *)
Definition lerp (x0 y0 t : R) : R := (1 - t) * x0 + t * y0.

(** [Vector3.lerp(v, alpha)] *)
Definition vlerp (v w : Vec3) (alpha : R) : Vec3 :=
  mkVec3 (vx v + (vx w - vx v) * alpha)
         (vy v + (vy w - vy v) * alpha)
         (vz v + (vz w - vz v) * alpha).

Definition vsub (a b : Vec3) : Vec3 := mkVec3 (vx a - vx b) (vy a - vy b) (vz a - vz b).

Definition vnorm (a : Vec3) : R := sqrt (vx a * vx a + vy a * vy a + vz a * vz a).

(** [InstancedOrnaments]: target of one particle. *)
Definition ornament_target (appState : AppState) (time : R) (d : ParticleData) : Vec3 :=
  match appState with
  | SCATTER | ZOOM =>
      mkVec3 (vx (scatterPos d) + cos (time * (1/2) + id d) * (2/10))
             (vy (scatterPos d) + sin (time + id d) * (1/2))
             (vz (scatterPos d))
  | TREE => treePos d
  end.

(** One particle of the [InstancedOrnaments] frame: the new buffer entry
    (position, scale) and the rotation written to [dummy] (its [z] is never
    set and stays 0). *)
Definition ornament_step (appState : AppState) (time delta : R) (d : ParticleData)
    (cur : Vec3 * R) : (Vec3 * R) * Vec3 :=
  let isTree := appstate_eqb appState TREE in
  let lerpSpeed := if isTree then 3 * delta else 2 * delta in
  let t := ornament_target appState time d in
  let '(c, currentScale) := cur in
  let n := mkVec3 (lerp (vx c) (vx t) lerpSpeed)
                  (lerp (vy c) (vy t) lerpSpeed)
                  (lerp (vz c) (vz t) lerpSpeed) in
  let targetScaleVal := if appstate_eqb appState ZOOM then 1/2 else 1 in
  let targetScale := scale d * targetScaleVal in
  let newScale := lerp currentScale targetScale (delta * 3) in
  ((n, newScale),
   mkVec3 (vx (rotationSpeed d) * time) (vy (rotationSpeed d) * time) 0).

(** The whole [InstancedOrnaments] frame over [data] and [buffer]. *)
Definition ornaments_frame (appState : AppState) (time delta : R)
    (data : list ParticleData) (buffer : list (Vec3 * R)) : list ((Vec3 * R) * Vec3) :=
  map (fun '(d, cur) => ornament_step appState time delta d cur) (combine data buffer).

(** The transform of a [PhotoDisplay] group. *)
Record PhotoTransform := mkPT { ppos : Vec3; prot : Vec3; pscale : R }.

Section Photo.

(** [Math.atan2] and [Object3D.lookAt] (the Euler rotation that makes an
    object at the first point face the second). *)
Variable atan2 : R -> R -> R.
Variable look_at : Vec3 -> Vec3 -> Vec3.

(** Target position, scale and rotation of a [PhotoDisplay]. *)
Definition photo_target (appState : AppState) (isSelected : bool) (time : R)
    (d : ParticleData) : Vec3 * R * Vec3 :=
  match appState with
  | SCATTER =>
      (mkVec3 (vx (scatterPos d)) (vy (scatterPos d) + sin (time + id d) * (3/10))
              (vz (scatterPos d)),
       if isSelected then 25/10 else 15/10,
       if isSelected then mkVec3 0 0 0 else mkVec3 0 (time * (1/10)) 0)
  | ZOOM =>
      if isSelected then (mkVec3 0 0 8, 6, mkVec3 0 0 0)
      else (mkVec3 (vx (scatterPos d) * (15/10)) (vy (scatterPos d) * (15/10))
                   (vz (scatterPos d) * (15/10)),
            1/2, mkVec3 0 (- id d * (1/2)) 0)
  | TREE =>
      (treePos d, 18/10, mkVec3 0 (atan2 (vx (treePos d)) (vz (treePos d))) 0)
  end.

(** One [PhotoDisplay] frame; [camPos] is [state.camera.position]. *)
Definition photo_step (appState : AppState) (isSelected : bool) (camPos : Vec3)
    (time delta : R) (d : ParticleData) (cur : PhotoTransform) : PhotoTransform :=
  let '(targetPos, targetScale, targetRot) := photo_target appState isSelected time d in
  let pos := vlerp (ppos cur) targetPos (delta * 3) in
  let rot :=
    if appstate_eqb appState ZOOM && isSelected then look_at pos camPos
    else mkVec3 (lerp (vx (prot cur)) (vx targetRot) (delta * 3))
                (lerp (vy (prot cur)) (vy targetRot) (delta * 3))
                (lerp (vz (prot cur)) (vz targetRot) (delta * 3)) in
  mkPT pos rot (lerp (pscale cur) targetScale (delta * 4)).

End Photo.

(** ** Concrete inputs *)

(** A front-on orthographic camera and one photo at the origin. *)
Definition ortho (v : Vec3) : R * R := (vx v, vy v).

Definition origin : Vec3 := mkVec3 0 0 0.

Definition photo0 : ParticleData := mkParticle 1000 origin origin origin 1 origin.

Definition hand_center : HandTrackingResult := mkResult OPEN_PALM (1/2, 1/2) true.

(** A present hand with gesture [g] at the centre. *)
Definition present (g : HandGesture) : HandTrackingResult := mkResult g (1/2, 1/2) true.

Definition hand21 : list Point := repeat (mkPoint 0 0) 21.

(** ** The approach rule of the specification *)

(** The approach rule of the specification (4.4):
    [current += (target - current) * rate * deltaTime], per component. *)
Definition chase3 (c t : Vec3) (rate dt : R) : Vec3 :=
  mkVec3 (vx c + (vx t - vx c) * rate * dt)
         (vy c + (vy t - vy c) * rate * dt)
         (vz c + (vz t - vz c) * rate * dt).

(** ** [src/constants.ts] *)

Definition PARTICLE_COUNT : nat := 400.
Definition TREE_HEIGHT : R := 15.
Definition TREE_RADIUS_BASE : R := 6.
Definition SCATTER_RADIUS : R := 20.

(** ** [HandController] [onResults]: landmark extraction (lines 28-45) *)

(** The raw frame read from [results.multiHandLandmarks] ([None] when it is
    absent). [Some None] is the no-hand frame; the outer [None] is a thrown
    exception. That happens when [detectGesture] throws, or when the first hand
    has no landmark at all, so that [palm] is [undefined]. A landmark object is
    always truthy, so [landmarks[9] || landmarks[0]] is [landmarks[9]] when it
    exists. *)
Definition raw_frame (multiHandLandmarks : option (list (list Point))) : option RawFrame :=
  match multiHandLandmarks with
  | Some (landmarks :: _) =>
      match detectGesture (Some landmarks) with
      | None => None
      | Some gesture =>
          let palm :=
            match nth_error landmarks 9 with
            | Some p => Some p
            | None => nth_error landmarks 0
            end in
          match palm with
          | Some palm => Some (Some (gesture, 1 - x palm, y palm))
          | None => None
          end
      end
  | _ => Some None
  end.

(** The whole callback. It returns the new refs and the result passed to
    [onHandUpdate] ([None] when nothing is emitted); the outer [None] is a
    thrown exception. [isMounted] is [isMountedRef.current]. *)
Definition onResults (isMounted : bool) (s : Stabilizer)
    (multiHandLandmarks : option (list (list Point)))
    : option (Stabilizer * option HandTrackingResult) :=
  if isMounted then
    match raw_frame multiHandLandmarks with
    | Some f => let '(s', r) := stabilize s f in Some (s', Some r)
    | None => None
    end
  else Some (s, None).

(** ** [App]: [handlePhotoUpload] (lines 72-78) *)

(** [files] is [e.target.files] ([None] when it is null). Each file is given
    by the object URL that [URL.createObjectURL] returns for it. *)
Definition handlePhotoUpload (a : AppModel) (files : option (list String.string)) : AppModel :=
  match files with
  | Some ((_ :: _) as newUrls) =>
      mkApp (appState a) (photos a ++ newUrls) (isHandPresent a) (currentGesture a)
            (activePhotoIndex a) (handData a)
  | _ => a
  end.

(** ** [Experience]: [shuffle] (lines 45-52) *)

(** [Math.floor] *)
Definition js_floor (r : R) : Z := Int_part r.

(** [Math.floor(r * (i + 1))] for a draw [r] of [Math.random()]. Since [r]
    lies in [[0, 1)], this is an index in [[0, i]], and [Z.to_nat] loses
    nothing. *)
Definition shuffle_index (r : R) (i : nat) : nat := Z.to_nat (js_floor (r * INR (i + 1))).

(** [[arr[i], arr[j]] = [arr[j], arr[i]]] for indices in range. The
    right-hand side is read first; then [arr[i]] is written, then [arr[j]]. *)
Definition swap_at {A} (i j : nat) (arr : list A) : list A :=
  match nth_error arr i, nth_error arr j with
  | Some ai, Some aj => set_nth j ai (set_nth i aj arr)
  | _, _ => arr
  end.

(** The loop [for (let i = arr.length - 1; i > 0; i--)]. [rnd i] is the
    value of [Math.random()] drawn at position [i]. *)
Fixpoint shuffle_loop {A} (rnd : nat -> R) (i : nat) (arr : list A) : list A :=
  match i with
  | O => arr
  | S i' => shuffle_loop rnd i' (swap_at i (shuffle_index (rnd i) i) arr)
  end.

Definition shuffle {A} (rnd : nat -> R) (array : list A) : list A :=
  shuffle_loop rnd (length array - 1) array.

(** ** [Experience]: the photo particles (lines 301-349) *)

(** The tree slot of photo [i] out of [n]. *)
Definition photo_tree_pos (n i : nat) : Vec3 :=
  let t := INR i / INR n in
  let yTree := (1 - t) * TREE_HEIGHT - TREE_HEIGHT / 2 in
  let radius := (1 - t) * TREE_RADIUS_BASE + 2 in
  let angle := INR i * (25 / 10) in
  mkVec3 (radius * cos angle) yTree (radius * sin angle).

(** [[(Math.random()-0.5)*15, (Math.random()-0.5)*15, (Math.random()-0.5)*10]] *)
Definition photo_scatter_pos (r1 r2 r3 : R) : Vec3 :=
  mkVec3 ((r1 - 1/2) * 15) ((r2 - 1/2) * 15) ((r3 - 1/2) * 10).

(** The draws of the photo at index [i]: [rnd (3 i)], [rnd (3 i + 1)] and
    [rnd (3 i + 2)]. *)
Definition photo_scatter_draw (rnd : nat -> R) (i : nat) : Vec3 :=
  photo_scatter_pos (rnd (3 * i)%nat) (rnd (3 * i + 1)%nat) (rnd (3 * i + 2)%nat).

(** The [photos] effect (lines 301-323). [type], [color] and [photoUrl] are
    not part of the [ParticleData] model. *)
Definition photo_particles (photos : list String.string) (rnd : nat -> R) : list ParticleData :=
  let n := length photos in
  map (fun i => mkParticle (INR i + 1000) origin (photo_tree_pos n i)
                           (photo_scatter_draw rnd i) 1 origin)
      (seq 0 n).

Definition with_treePos (p : ParticleData) (v : Vec3) : ParticleData :=
  mkParticle (id p) (initialPos p) v (scatterPos p) (scale p) (rotationSpeed p).

Definition with_scatterPos (p : ParticleData) (v : Vec3) : ParticleData :=
  mkParticle (id p) (initialPos p) (treePos p) v (scale p) (rotationSpeed p).

(** The reshuffle effect (lines 325-349): the updater applied to [prev].
    [rnd_shuffle] feeds [shuffle] and [rnd_scatter] the new scatter draws. *)
Definition reshuffle_effect (appState : AppState) (rnd_shuffle rnd_scatter : nat -> R)
    (prev : list ParticleData) : list ParticleData :=
  match prev with
  | [] => prev
  | _ =>
      let n := length prev in
      match appState with
      | TREE =>
          let treePositions := map (photo_tree_pos n) (seq 0 n) in
          let shuffledPositions := shuffle rnd_shuffle treePositions in
          map (fun '(p, v) => with_treePos p v) (combine prev shuffledPositions)
      | SCATTER =>
          map (fun '(p, i) => with_scatterPos p (photo_scatter_draw rnd_scatter i))
              (combine prev (seq 0 n))
      | ZOOM => prev
      end
  end.

(** ** [Experience]: the ornament particles (lines 252-297) *)

(** [ParticleData['type']] *)
Inductive ParticleType := SPHERE | CUBE | CYLINDER | PHOTO.

Definition types : list ParticleType := [SPHERE; CUBE; CYLINDER].

(** [arr[k]] for an integer [k]; [None] is [undefined]. *)
Definition js_index {A} (l : list A) (k : Z) : option A :=
  if (k <? 0)%Z then None else nth_error l (Z.to_nat k).

Definition phi : R := PI * (3 - sqrt 5).

(** Ornament [i]. Its nine draws of [Math.random()] come in source order
    (jitter, scatter x, y, z, type, scale, rotation x, y, z), as
    [rnd (9 i + k)]. *)
Definition ornament_particle (rnd : nat -> R) (i : nat) : option ParticleType * ParticleData :=
  let count := PARTICLE_COUNT in
  let t := INR i / INR count in
  let yTree := t * TREE_HEIGHT - TREE_HEIGHT / 2 in
  let maxRadius := (1 - t) * TREE_RADIUS_BASE in
  let angle := INR i * phi in
  let r := fun k : nat => rnd (9 * i + k)%nat in
  let rJitter := maxRadius * (3/10 + 7/10 * sqrt (r 0%nat)) in
  let xTree := rJitter * cos angle in
  let zTree := rJitter * sin angle in
  let rScatter := SCATTER_RADIUS in
  let xScatter := (r 1%nat - 1/2) * rScatter * 2 in
  let yScatter := (r 2%nat - 1/2) * rScatter * (15/10) in
  let zScatter := (r 3%nat - 1/2) * rScatter * 2 in
  let type := js_index types (js_floor (r 4%nat * INR (length types))) in
  (type,
   mkParticle (INR i) (mkVec3 xScatter yScatter zScatter) (mkVec3 xTree yTree zTree)
              (mkVec3 xScatter yScatter zScatter) (r 5%nat * (3/10) + 1/10)
              (mkVec3 (r 6%nat) (r 7%nat) (r 8%nat))).

(** The [particles] memo. *)
Definition ornament_particles (rnd : nat -> R) : list (option ParticleType * ParticleData) :=
  map (ornament_particle rnd) (seq 0 PARTICLE_COUNT).

(** The [spheres]/[cubes]/[cylinders] memo: one [forEach] that pushes. *)
Definition split_step (acc : list ParticleData * list ParticleData * list ParticleData)
    (tp : option ParticleType * ParticleData)
    : list ParticleData * list ParticleData * list ParticleData :=
  let '(s, c, cyl) := acc in
  let '(ty, p) := tp in
  match ty with
  | Some SPHERE => (s ++ [p], c, cyl)
  | Some CUBE => (s, c ++ [p], cyl)
  | Some CYLINDER => (s, c, cyl ++ [p])
  | _ => (s, c, cyl)
  end.

Definition split_types (ps : list (option ParticleType * ParticleData))
    : list ParticleData * list ParticleData * list ParticleData :=
  fold_left split_step ps ([], [], []).

(** ** [Experience]: the camera frame (lines 384-403) *)

(** The new [state.camera.position]; [lookAt] turns the camera only.
    [hand] is [handDataRef.current]. *)
Definition camera_frame (appState : AppState) (hand : HandTrackingResult) (time delta : R)
    (cam : Vec3) : Vec3 :=
  match appState with
  | SCATTER =>
      let '(hx, hy) := position hand in
      let targetX := (hx - 1/2) * 10 in
      let targetY := (hy - 1/2) * 5 in
      let r := 25 in
      let desiredCamX := sin (targetX * (1/2)) * r in
      let desiredCamZ := cos (targetX * (1/2)) * r in
      let desiredCamY := - targetY * 2 in
      vlerp cam (mkVec3 desiredCamX desiredCamY desiredCamZ) (delta * 2)
  | TREE =>
      let r := 25 in
      mkVec3 (sin (time * (1/10)) * r) (lerp (vy cam) 0 delta) (cos (time * (1/10)) * r)
  | ZOOM => cam
  end.

(** ** Predicates used by the properties *)

(** A position inside the box [[lo, hi]] x [[lo, hi]]. *)
Definition in_box (lo hi : R) (p : R * R) : Prop :=
  lo <= fst p <= hi /\ lo <= snd p <= hi.

(** A raw frame whose position (if any) lies in that box. *)
Definition frame_in_box (lo hi : R) (f : RawFrame) : Prop :=
  match f with
  | Some (_, rawX, rawY) => lo <= rawX <= hi /\ lo <= rawY <= hi
  | None => True
  end.

(** Successive calls of [onHandUpdateProxy]. *)
Definition proxy_run (a : AppModel) (rs : list HandTrackingResult) : AppModel :=
  fold_left onHandUpdateProxy rs a.

(** The box the photo scatter positions are drawn in. *)
Definition photo_box (v : Vec3) : Prop :=
  -15/2 <= vx v < 15/2 /\ -15/2 <= vy v < 15/2 /\ -5 <= vz v < 5.

(** The box the ornament scatter positions are drawn in. *)
Definition ornament_box (v : Vec3) : Prop :=
  -20 <= vx v < 20 /\ -15 <= vy v < 15 /\ -20 <= vz v < 20.

(** [p.type === ty] *)
Definition has_type (ty : ParticleType) (tp : option ParticleType * ParticleData) : bool :=
  match fst tp with
  | Some t => match t, ty with
              | SPHERE, SPHERE | CUBE, CUBE | CYLINDER, CYLINDER | PHOTO, PHOTO => true
              | _, _ => false
              end
  | None => false
  end.

(** An ornament whose type is one of [types]. *)
Definition ornament_typed (tp : option ParticleType * ParticleData) : Prop :=
  fst tp = Some SPHERE \/ fst tp = Some CUBE \/ fst tp = Some CYLINDER.

(** The ornaments of each type, in order. *)
Definition spheres_of (ps : list (option ParticleType * ParticleData)) : list ParticleData :=
  map snd (filter (has_type SPHERE) ps).

Definition cubes_of (ps : list (option ParticleType * ParticleData)) : list ParticleData :=
  map snd (filter (has_type CUBE) ps).

Definition cylinders_of (ps : list (option ParticleType * ParticleData)) : list ParticleData :=
  map snd (filter (has_type CYLINDER) ps).

(** * Properties *)

(** ** Gesture classifier *)

Lemma nth_error_nth_lt {A} (l : list A) (k : nat) (d : A) :
  (k < length l)%nat -> nth_error l k = Some (nth k l d).
Proof.
  revert k; induction l as [|h t IH]; intros [|k] Hk; simpl in *; try lia; auto.
  apply IH; lia.
Qed.

Lemma isFingerFolded_spec (l : list Point) (tip pip : nat) :
  length l = 21%nat -> (tip < 21)%nat -> (pip < 21)%nat ->
  isFingerFolded l (nth 0 l (mkPoint 0 0)) tip pip = Some (folded_spec l tip pip).
Proof.
  intros Hl Ht Hp. unfold isFingerFolded, folded_spec.
  rewrite (nth_error_nth_lt l tip (mkPoint 0 0)) by lia.
  rewrite (nth_error_nth_lt l pip (mkPoint 0 0)) by lia.
  now rewrite (Rmult_comm (11 / 10)).
Qed.

Lemma classify_spec_not_none (a b c d : bool) : classify_spec a b c d <> NONE.
Proof. destruct a, b, c, d; discriminate. Qed.

Lemma detectGesture_21 (l : list Point) :
  length l = 21%nat ->
  detectGesture (Some l) =
  Some (classify_spec (folded_spec l 8 6) (folded_spec l 12 10)
                      (folded_spec l 16 14) (folded_spec l 20 18)).
Proof.
  intros Hl. destruct l as [|w t]; [discriminate|].
  unfold detectGesture. cbn beta iota.
  change w with (nth 0 (w :: t) (mkPoint 0 0)).
  rewrite !isFingerFolded_spec by lia.
  unfold classify_spec.
  destruct (folded_spec _ 8 6), (folded_spec _ 12 10),
           (folded_spec _ 16 14), (folded_spec _ 20 18); reflexivity.
Qed.

Lemma set_nth_length {A} (i : nat) (v : A) (l : list A) :
  length (set_nth i v l) = length l.
Proof. revert i; induction l; intros [|i]; simpl; auto. Qed.

Lemma nth_set_nth_ne {A} (i k : nat) (v d : A) (l : list A) :
  k <> i -> nth k (set_nth i v l) d = nth k l d.
Proof.
  revert i k; induction l as [|h t IH]; intros [|i] [|k] Hne; simpl; auto; try lia.
Qed.

Lemma folded_spec_set_thumb (l : list Point) (i tip pip : nat) (p : Point) :
  (1 <= i <= 4)%nat -> (5 <= tip)%nat -> (5 <= pip)%nat ->
  folded_spec (set_nth i p l) tip pip = folded_spec l tip pip.
Proof.
  intros Hi Ht Hp. unfold folded_spec.
  rewrite !nth_set_nth_ne by lia. reflexivity.
Qed.

(** ** Gesture counts and the dominant label *)

Section Counting.
Local Open Scope nat_scope.

Lemma gesture_eqb_spec (a b : HandGesture) : gesture_eqb a b = true <-> a = b.
Proof. unfold gesture_eqb; destruct (HandGesture_eq_dec a b); split; congruence. Qed.

Lemma lookup_count_add (acc : list (HandGesture * nat)) (g k : HandGesture) :
  lookup (count_add acc g) k = lookup acc k + (if HandGesture_eq_dec g k then 1 else 0).
Proof.
  induction acc as [|[k' n] t IH]; simpl.
  - unfold gesture_eqb. destruct (HandGesture_eq_dec g k); reflexivity.
  - unfold gesture_eqb at 1.
    destruct (HandGesture_eq_dec k' g) as [->|Hne]; simpl.
    + unfold gesture_eqb. destruct (HandGesture_eq_dec g k); simpl; lia.
    + unfold gesture_eqb in *. rewrite IH.
      destruct (HandGesture_eq_dec k' k) as [->|]; [|reflexivity].
      destruct (HandGesture_eq_dec g k); [congruence|lia].
Qed.

Lemma lookup_fold_count_add (h : list HandGesture) (acc : list (HandGesture * nat))
    (k : HandGesture) :
  lookup (fold_left count_add h acc) k = lookup acc k + count_occ HandGesture_eq_dec h k.
Proof.
  revert acc; induction h as [|g t IH]; intros acc; simpl; [lia|].
  rewrite IH, lookup_count_add.
  destruct (HandGesture_eq_dec g k); lia.
Qed.

(** [counts[k]] is the number of occurrences of [k] in the history. *)
Lemma lookup_counts_of (h : list HandGesture) (k : HandGesture) :
  lookup (counts_of h) k = count_occ HandGesture_eq_dec h k.
Proof. unfold counts_of. rewrite lookup_fold_count_add. reflexivity. Qed.

Lemma keys_count_add (acc : list (HandGesture * nat)) (g k : HandGesture) :
  In k (map fst (count_add acc g)) <-> In k (map fst acc) \/ k = g.
Proof.
  induction acc as [|[k' n] t IH]; simpl.
  - intuition.
  - unfold gesture_eqb. destruct (HandGesture_eq_dec k' g) as [->|]; simpl;
      [intuition|rewrite IH; intuition].
Qed.

Lemma keys_fold_count_add (h : list HandGesture) (acc : list (HandGesture * nat))
    (k : HandGesture) :
  In k (map fst (fold_left count_add h acc)) <-> In k (map fst acc) \/ In k h.
Proof.
  revert acc; induction h as [|g t IH]; intros acc; simpl.
  - intuition.
  - rewrite IH, keys_count_add. intuition.
Qed.

(** The keys of [counts] are exactly the labels of the history. *)
Lemma keys_counts_of (h : list HandGesture) (k : HandGesture) :
  In k (map fst (counts_of h)) <-> In k h.
Proof. unfold counts_of. rewrite keys_fold_count_add. simpl. intuition. Qed.

(** The [reduce] over the keys returns a key whose count is not exceeded by
    any earlier key and strictly exceeds that of every later key. *)
Lemma reduce_last_max (f : HandGesture -> nat) (ks : list HandGesture) (a : HandGesture) :
  exists pre post,
    a :: ks = pre ++ fold_left (fun a b => if f b <? f a then a else b) ks a :: post /\
    Forall (fun k => f k <= f (fold_left (fun a b => if f b <? f a then a else b) ks a)) pre /\
    Forall (fun k => f k < f (fold_left (fun a b => if f b <? f a then a else b) ks a)) post.
Proof.
  revert a; induction ks as [|b ks IH]; intros a; simpl.
  - exists [], []. repeat split; constructor.
  - destruct (Nat.ltb_spec (f b) (f a)) as [Hlt|Hge].
    + destruct (IH a) as (pre & post & Heq & Hpre & Hpost).
      remember (fold_left _ ks a) as r eqn:Er. clear Er.
      destruct pre as [|a' pre].
      * simpl in Heq. injection Heq as Ha Hks. subst.
        exists [], (b :: post). repeat split; auto.
      * simpl in Heq. injection Heq as Ha Heq. subst a'.
        inversion Hpre as [|? ? Ha Hpre']; subst.
        exists (a :: b :: pre), post. repeat split; auto.
        constructor; auto. constructor; auto. lia.
    + destruct (IH b) as (pre & post & Heq & Hpre & Hpost).
      remember (fold_left _ ks b) as r eqn:Er. clear Er.
      assert (Hb : f b <= f r).
      { destruct pre as [|b' pre]; simpl in Heq; injection Heq as Hb _.
        - subst; lia.
        - subst. now inversion Hpre. }
      exists (a :: pre), post. rewrite Heq. repeat split; auto.
      constructor; auto. lia.
Qed.

Lemma count_occ_two_le (h : list HandGesture) (a b : HandGesture) :
  a <> b -> count_occ HandGesture_eq_dec h a + count_occ HandGesture_eq_dec h b <= length h.
Proof.
  intros Hab. induction h as [|g t IH]; simpl; [lia|].
  destruct (HandGesture_eq_dec g a), (HandGesture_eq_dec g b); subst; try congruence; lia.
Qed.

End Counting.

(** ** Stabilizer *)

Lemma dominant_of_max (h : list HandGesture) :
  h <> [] ->
  exists r, dominant_of (counts_of h) = Some r /\ In r h /\
    forall k, (count_occ HandGesture_eq_dec h k <= count_occ HandGesture_eq_dec h r)%nat.
Proof.
  intros Hne. unfold dominant_of.
  destruct (map fst (counts_of h)) as [|k0 ks] eqn:E.
  - destruct h as [|g t]; [congruence|].
    pose proof (proj2 (keys_counts_of (g :: t) g) (or_introl eq_refl)) as Hin.
    rewrite E in Hin. destruct Hin.
  - destruct (reduce_last_max (lookup (counts_of h)) ks k0) as (pre & post & Heq & Hpre & Hpost).
    remember (fold_left _ ks k0) as r eqn:Er. clear Er.
    exists r. split; [reflexivity|]. split.
    + apply keys_counts_of. rewrite E, Heq. apply in_or_app. right. left. reflexivity.
    + intros k. rewrite <- !lookup_counts_of.
      destruct (in_dec HandGesture_eq_dec k h) as [Hk|Hk].
      * apply keys_counts_of in Hk. rewrite E, Heq in Hk.
        apply in_app_or in Hk as [Hk|[<-|Hk]].
        -- rewrite Forall_forall in Hpre. auto.
        -- lia.
        -- rewrite Forall_forall in Hpost. specialize (Hpost k Hk). lia.
      * rewrite lookup_counts_of. apply (count_occ_not_In HandGesture_eq_dec) in Hk. rewrite Hk. lia.
Qed.

Lemma stabilize_present (s : Stabilizer) (g : HandGesture) (rawX rawY : R) :
  stabilize s (Some (g, rawX, rawY)) =
  let '(px, py) := prevPosition s in
  let hist := push_history (gestureHistory s) g in
  let emitted :=
    match dominant_of (counts_of hist) with
    | Some dominant =>
        if (3 <=? lookup (counts_of hist) dominant)%nat then dominant
        else lastEmittedGesture s
    | None => lastEmittedGesture s
    end in
  (mkStab (px + (rawX - px) * smoothingFactor, py + (rawY - py) * smoothingFactor)
          hist emitted,
   mkResult emitted (px + (rawX - px) * smoothingFactor, py + (rawY - py) * smoothingFactor)
            true).
Proof. unfold stabilize. destruct (prevPosition s); reflexivity. Qed.

Lemma push_history_last_n (h : list HandGesture) (g : HandGesture) :
  (length h <= 5)%nat -> push_history h g = last_n 5 (h ++ [g]).
Proof.
  intros Hl. unfold push_history, last_n. rewrite length_app. simpl.
  destruct (Nat.ltb_spec 5 (length h + 1)) as [Hlt|Hge].
  - replace (length h + 1 - 5)%nat with 1%nat by lia.
    destruct h; reflexivity.
  - replace (length h + 1 - 5)%nat with 0%nat by lia. reflexivity.
Qed.

Lemma push_history_length (h : list HandGesture) (g : HandGesture) :
  (length h <= 5)%nat -> (length (push_history h g) <= 5)%nat.
Proof.
  intros Hl. unfold push_history. rewrite length_app. simpl.
  destruct (Nat.ltb_spec 5 (length h + 1)).
  - destruct h; simpl in *; [lia|]. rewrite length_app in *. simpl in *. lia.
  - rewrite length_app. simpl. lia.
Qed.

Lemma push_history_nonempty (h : list HandGesture) (g : HandGesture) :
  (length h <= 5)%nat -> push_history h g <> [].
Proof.
  intros Hl Habs. pose proof (push_history_last_n h g Hl) as E.
  unfold push_history in Habs. rewrite length_app in Habs. simpl in Habs.
  destruct (Nat.ltb_spec 5 (length h + 1)).
  - destruct h as [|a t]; simpl in *; [lia|].
    destruct t; simpl in *; [lia|discriminate].
  - destruct h; discriminate.
Qed.

(** The emitted label on a present frame, in terms of the new history. *)
Lemma emitted_rule (h : list HandGesture) (prev : HandGesture) :
  h <> [] -> (length h <= 5)%nat ->
  let emitted :=
    match dominant_of (counts_of h) with
    | Some dominant =>
        if (3 <=? lookup (counts_of h) dominant)%nat then dominant else prev
    | None => prev
    end in
  (forall g', (3 <= count_occ HandGesture_eq_dec h g')%nat ->
     emitted = g' /\
     forall g'', (count_occ HandGesture_eq_dec h g'' <= count_occ HandGesture_eq_dec h g')%nat) /\
  ((forall g', (count_occ HandGesture_eq_dec h g' < 3)%nat) -> emitted = prev).
Proof.
  intros Hne Hl emitted.
  destruct (dominant_of_max h Hne) as (r & Hr & Hin & Hmax).
  subst emitted. rewrite Hr, lookup_counts_of. split.
  - intros g' Hg'.
    assert (Hrg : r = g').
    { destruct (HandGesture_eq_dec r g') as [|Hne']; [assumption|].
      pose proof (count_occ_two_le h r g' Hne'). specialize (Hmax g'). lia. }
    subst r.
    destruct (Nat.leb_spec 3 (count_occ HandGesture_eq_dec h g')); [|lia].
    split; auto.
  - intros Hall. specialize (Hall r).
    destruct (Nat.leb_spec 3 (count_occ HandGesture_eq_dec h r)); [lia|reflexivity].
Qed.

Lemma history_step (s : Stabilizer) (g : HandGesture) (rawX rawY : R) :
  gestureHistory (fst (stabilize s (Some (g, rawX, rawY)))) =
  push_history (gestureHistory s) g.
Proof. rewrite stabilize_present. destruct (prevPosition s); reflexivity. Qed.

Lemma emitted_step (s : Stabilizer) (g : HandGesture) (rawX rawY : R) :
  lastEmittedGesture (fst (stabilize s (Some (g, rawX, rawY)))) =
  match dominant_of (counts_of (push_history (gestureHistory s) g)) with
  | Some dominant =>
      if (3 <=? lookup (counts_of (push_history (gestureHistory s) g)) dominant)%nat
      then dominant else lastEmittedGesture s
  | None => lastEmittedGesture s
  end.
Proof. rewrite stabilize_present. destruct (prevPosition s); reflexivity. Qed.

Lemma output_step (s : Stabilizer) (g : HandGesture) (rawX rawY : R) :
  gesture (snd (stabilize s (Some (g, rawX, rawY)))) =
    lastEmittedGesture (fst (stabilize s (Some (g, rawX, rawY)))) /\
  isPresent (snd (stabilize s (Some (g, rawX, rawY)))) = true.
Proof. rewrite stabilize_present. destruct (prevPosition s); split; reflexivity. Qed.

Lemma five_pushes (h : list HandGesture) (g : HandGesture) :
  (length h <= 5)%nat ->
  push_history (push_history (push_history (push_history (push_history h g) g) g) g) g
  = [g; g; g; g; g].
Proof.
  intros Hl.
  destruct h as [|a [|b [|c [|d [|e [|f t]]]]]]; simpl in Hl; try lia; reflexivity.
Qed.

Lemma stab_run_cons (s : Stabilizer) (f : RawFrame) (fs : list RawFrame) :
  stab_run s (f :: fs) = stab_run (fst (stabilize s f)) fs.
Proof. reflexivity. Qed.

(** C4: on a present frame the history is the last (at most) 5 raw labels
    (FIFO, oldest evicted), and the emitted gesture becomes the most
    frequent label when it occurs at least 3 times, otherwise the previously
    emitted gesture is kept; 5 identical raw gestures emit that gesture. *)
Theorem stabilizer_debounce :
  (forall (s : Stabilizer) (g : HandGesture) (rawX rawY : R),
    (length (gestureHistory s) <= 5)%nat ->
    let s' := fst (stabilize s (Some (g, rawX, rawY))) in
    let out := snd (stabilize s (Some (g, rawX, rawY))) in
    let h' := gestureHistory s' in
    h' = last_n 5 (gestureHistory s ++ [g]) /\
    (length h' <= 5)%nat /\
    (forall g', (3 <= count_occ HandGesture_eq_dec h' g')%nat ->
       lastEmittedGesture s' = g' /\
       forall g'', (count_occ HandGesture_eq_dec h' g'' <= count_occ HandGesture_eq_dec h' g')%nat) /\
    ((forall g', (count_occ HandGesture_eq_dec h' g' < 3)%nat) ->
       lastEmittedGesture s' = lastEmittedGesture s) /\
    gesture out = lastEmittedGesture s' /\ isPresent out = true) /\
  (forall (s : Stabilizer) (g : HandGesture) (ps : list (R * R)),
    (length (gestureHistory s) <= 5)%nat -> length ps = 5%nat ->
    let s5 := stab_run s (map (fun p => Some (g, fst p, snd p)) ps) in
    gestureHistory s5 = [g; g; g; g; g] /\ lastEmittedGesture s5 = g).
Proof.
  split.
  - intros s g rawX rawY Hl s' out h'.
    subst h' s' out. rewrite history_step, emitted_step.
    pose proof (push_history_nonempty _ g Hl) as Hne.
    pose proof (push_history_length _ g Hl) as Hl'.
    destruct (emitted_rule _ (lastEmittedGesture s) Hne Hl') as [Hmaj Hmin].
    destruct (output_step s g rawX rawY) as [Ho Hp].
    rewrite emitted_step in Ho.
    split; [apply push_history_last_n; assumption|].
    split; [assumption|].
    split; [exact Hmaj|].
    split; [exact Hmin|].
    split; assumption.
  - intros s g ps Hl Hps s5. subst s5.
    destruct ps as [|p1 [|p2 [|p3 [|p4 [|p5 [|p6 ps]]]]]]; simpl in Hps; try lia.
    cbn [map]. rewrite !stab_run_cons. change (stab_run ?s0 []) with s0.
    set (s4 := fst (stabilize (fst (stabilize (fst (stabilize (fst (stabilize s
                 (Some (g, fst p1, snd p1)))) (Some (g, fst p2, snd p2))))
                 (Some (g, fst p3, snd p3)))) (Some (g, fst p4, snd p4)))).
    assert (H4 : push_history (gestureHistory s4) g = [g; g; g; g; g]).
    { subst s4. rewrite !history_step. apply five_pushes; assumption. }
    rewrite history_step, emitted_step, H4. split; [reflexivity|].
    destruct g; reflexivity.
Qed.

(** C5: an absent frame clears the history, emits [NONE] and freezes the
    smoothed position on that very tick; every emitted state with
    [isPresent = false] has gesture [NONE]. *)
Theorem presence_loss_immediate :
  (forall s : Stabilizer,
    let '(s', out) := stabilize s None in
    gestureHistory s' = [] /\ lastEmittedGesture s' = NONE /\
    prevPosition s' = prevPosition s /\
    out = mkResult NONE (prevPosition s) false) /\
  (forall (s : Stabilizer) (f : RawFrame),
    isPresent (snd (stabilize s f)) = false -> gesture (snd (stabilize s f)) = NONE).
Proof.
  split.
  - intros s. simpl. repeat split.
  - intros s [[[g rawX] rawY]|] Hp.
    + destruct (output_step s g rawX rawY) as [_ Hp']. congruence.
    + reflexivity.
Qed.

Lemma dominant_of_last_max (h : list HandGesture) :
  h <> [] ->
  exists r pre post,
    dominant_of (counts_of h) = Some r /\
    map fst (counts_of h) = pre ++ r :: post /\
    Forall (fun k => (count_occ HandGesture_eq_dec h k <= count_occ HandGesture_eq_dec h r)%nat) pre /\
    Forall (fun k => (count_occ HandGesture_eq_dec h k < count_occ HandGesture_eq_dec h r)%nat) post.
Proof.
  intros Hne. unfold dominant_of.
  destruct (map fst (counts_of h)) as [|k0 ks] eqn:E.
  - destruct h as [|g t]; [congruence|].
    pose proof (proj2 (keys_counts_of (g :: t) g) (or_introl eq_refl)) as Hin.
    rewrite E in Hin. destruct Hin.
  - destruct (reduce_last_max (lookup (counts_of h)) ks k0) as (pre & post & Heq & Hpre & Hpost).
    remember (fold_left _ ks k0) as r eqn:Er. clear Er.
    exists r, pre, post. split; [reflexivity|]. split; [exact Heq|].
    split; [eapply Forall_impl; [|exact Hpre] | eapply Forall_impl; [|exact Hpost]];
      intros k Hk; rewrite <- !lookup_counts_of; exact Hk.
Qed.

(** C8 (as stated): two labels tied at one occurrence each; the reduce picks
    the one met last in the key order, not the first. *)
Lemma dominant_tie_counterexample :
  let h := gestureHistory (stab_run stab_init
             [Some (FIST, 1/2, 1/2); Some (OPEN_PALM, 1/2, 1/2)]) in
  h = [FIST; OPEN_PALM] /\
  map fst (counts_of h) = [FIST; OPEN_PALM] /\
  lookup (counts_of h) FIST = lookup (counts_of h) OPEN_PALM /\
  dominant_of (counts_of h) = Some OPEN_PALM /\
  dominant_of (counts_of h) <> Some FIST.
Proof.
  intros h.
  assert (Hh : h = [FIST; OPEN_PALM]) by reflexivity.
  rewrite Hh. repeat split; try reflexivity. discriminate.
Qed.

(** C8 (amended): the [reduce] returns the maximal label whose key comes
    last among the maximal ones in the key order (the order of first
    occurrence in the history); in a window of at most 5 two different
    labels tie only below 3, so the tie-break never decides the emitted
    gesture. *)
Theorem dominant_tie_break_last :
  forall h : list HandGesture, h <> [] ->
  (exists r pre post,
    dominant_of (counts_of h) = Some r /\
    map fst (counts_of h) = pre ++ r :: post /\
    Forall (fun k => (count_occ HandGesture_eq_dec h k <= count_occ HandGesture_eq_dec h r)%nat) pre /\
    Forall (fun k => (count_occ HandGesture_eq_dec h k < count_occ HandGesture_eq_dec h r)%nat) post) /\
  ((length h <= 5)%nat -> forall a b, a <> b ->
     count_occ HandGesture_eq_dec h a = count_occ HandGesture_eq_dec h b ->
     (count_occ HandGesture_eq_dec h a < 3)%nat).
Proof.
  intros h Hne. split.
  - apply dominant_of_last_max; assumption.
  - intros Hl a b Hab Heq. pose proof (count_occ_two_le h a b Hab). lia.
Qed.

(** ** Position smoothing *)

Lemma position_step (s : Stabilizer) (g : HandGesture) (rawX rawY : R) :
  prevPosition (fst (stabilize s (Some (g, rawX, rawY)))) =
  (fst (prevPosition s) + 1/10 * (rawX - fst (prevPosition s)),
   snd (prevPosition s) + 1/10 * (rawY - snd (prevPosition s))).
Proof.
  rewrite stabilize_present. destruct (prevPosition s) as [px py]. simpl.
  unfold smoothingFactor. f_equal; ring.
Qed.

Lemma smoothing_error (s : Stabilizer) (cx cy : R) (gs : list HandGesture) :
  let s' := stab_run s (map (fun g => Some (g, cx, cy)) gs) in
  Rabs (fst (prevPosition s') - cx) = (9/10) ^ length gs * Rabs (fst (prevPosition s) - cx) /\
  Rabs (snd (prevPosition s') - cy) = (9/10) ^ length gs * Rabs (snd (prevPosition s) - cy).
Proof.
  revert s; induction gs as [|g gs IH]; intros s s'; subst s'.
  - simpl. split; ring.
  - cbn [map length]. rewrite stab_run_cons.
    destruct (IH (fst (stabilize s (Some (g, cx, cy))))) as [Hx Hy].
    rewrite Hx, Hy, position_step. cbn [fst snd pow].
    replace (fst (prevPosition s) + 1/10 * (cx - fst (prevPosition s)) - cx)
      with (9/10 * (fst (prevPosition s) - cx)) by lra.
    replace (snd (prevPosition s) + 1/10 * (cy - snd (prevPosition s)) - cy)
      with (9/10 * (snd (prevPosition s) - cy)) by lra.
    rewrite !Rabs_mult, (Rabs_right (9/10)) by lra.
    split; ring.
Qed.

(** C9: on a present frame each coordinate moves by exactly
    [0.1 * (raw - smoothed)]; under a constant raw position the error is
    multiplied by 0.9 per tick, hence falls below any [eps] after a bounded
    number of ticks. *)
Theorem smoothing_geometric :
  (forall (s : Stabilizer) (g : HandGesture) (rawX rawY : R),
    prevPosition (fst (stabilize s (Some (g, rawX, rawY)))) =
    (fst (prevPosition s) + 1/10 * (rawX - fst (prevPosition s)),
     snd (prevPosition s) + 1/10 * (rawY - snd (prevPosition s)))) /\
  (forall (s : Stabilizer) (cx cy : R) (gs : list HandGesture),
    let s' := stab_run s (map (fun g => Some (g, cx, cy)) gs) in
    Rabs (fst (prevPosition s') - cx) = (9/10) ^ length gs * Rabs (fst (prevPosition s) - cx) /\
    Rabs (snd (prevPosition s') - cy) = (9/10) ^ length gs * Rabs (snd (prevPosition s) - cy)) /\
  (forall (s : Stabilizer) (cx cy eps : R), 0 < eps ->
    exists N : nat, forall gs : list HandGesture, (N <= length gs)%nat ->
      let s' := stab_run s (map (fun g => Some (g, cx, cy)) gs) in
      Rabs (fst (prevPosition s') - cx) < eps /\ Rabs (snd (prevPosition s') - cy) < eps).
Proof.
  split; [exact position_step|]. split; [exact smoothing_error|].
  intros s cx cy eps Heps.
  set (ex := Rabs (fst (prevPosition s) - cx)).
  set (ey := Rabs (snd (prevPosition s) - cy)).
  set (M := ex + ey + 1).
  assert (HM : 0 < M) by (subst M ex ey; pose proof (Rabs_pos (fst (prevPosition s) - cx));
                          pose proof (Rabs_pos (snd (prevPosition s) - cy)); lra).
  destruct (pow_lt_1_zero (9/10)) with (y := eps / M) as [N HN].
  { rewrite Rabs_right by lra. lra. }
  { apply Rdiv_lt_0_compat; assumption. }
  exists N. intros gs Hgs s'.
  destruct (smoothing_error s cx cy gs) as [Hx Hy]. fold s' in Hx, Hy.
  specialize (HN (length gs) Hgs).
  assert (Hp : 0 <= (9/10) ^ length gs) by (apply pow_le; lra).
  rewrite Rabs_right in HN by lra.
  assert (Hq : (9/10) ^ length gs * M < eps).
  { apply (Rmult_lt_compat_r M) in HN; [|assumption].
    unfold Rdiv in HN. rewrite Rmult_assoc, Rinv_l, Rmult_1_r in HN; lra. }
  assert (Hex : 0 <= ex) by apply Rabs_pos.
  assert (Hey : 0 <= ey) by apply Rabs_pos.
  rewrite Hx, Hy. fold ex ey.
  split; [apply Rle_lt_trans with ((9/10) ^ length gs * M)
         |apply Rle_lt_trans with ((9/10) ^ length gs * M)]; try assumption;
    apply Rmult_le_compat_l; subst M; lra.
Qed.

(** ** Pointer selector *)

Section SelectionProofs.
Variable project : Vec3 -> R * R.

Lemma select_loop_cons (mode : AppState) (ndcX ndcY : R) (p : ParticleData)
    (t : list ParticleData) (i : Z) (acc : option R * Z) :
  select_loop project mode ndcX ndcY (p :: t) i acc =
  select_loop project mode ndcX ndcY t (i + 1)%Z
    (match fst acc with
     | None => (Some (loop_dist project mode ndcX ndcY p), i)
     | Some m => if Rltb (loop_dist project mode ndcX ndcY p) m
                 then (Some (loop_dist project mode ndcX ndcY p), i) else acc
     end).
Proof.
  simpl. unfold loop_dist.
  destruct (project (if appstate_eqb mode TREE then treePos p else scatterPos p)); reflexivity.
Qed.

Lemma select_loop_inv (mode : AppState) (ndcX ndcY : R) (rest done : list ParticleData)
    (acc : option R * Z) :
  sel_inv project mode ndcX ndcY done acc ->
  sel_inv project mode ndcX ndcY (done ++ rest)
    (select_loop project mode ndcX ndcY rest (Z.of_nat (length done)) acc).
Proof.
  revert done acc; induction rest as [|p rest IH]; intros done acc Hinv.
  - simpl. rewrite app_nil_r. exact Hinv.
  - rewrite select_loop_cons.
    replace (Z.of_nat (length done) + 1)%Z with (Z.of_nat (length (done ++ [p])))
      by (rewrite length_app; simpl; lia).
    replace (done ++ p :: rest) with ((done ++ [p]) ++ rest)
      by (rewrite <- app_assoc; reflexivity).
    apply IH.
    destruct Hinv as (m & j & q & -> & Hq & Hd & Hmin). simpl fst. cbv iota.
    unfold Rltb. destruct (Rlt_dec (loop_dist project mode ndcX ndcY p) m) as [Hlt|Hge].
    + exists (loop_dist project mode ndcX ndcY p), (length done), p. split; [reflexivity|].
      split; [rewrite nth_error_app2, Nat.sub_diag by lia; reflexivity|].
      split; [reflexivity|].
      intros q' Hq'. apply in_app_or in Hq' as [Hq'|[<-|[]]].
      * specialize (Hmin q' Hq'). lra.
      * lra.
    + exists m, j, q. split; [reflexivity|].
      split; [rewrite nth_error_app1; [assumption|apply nth_error_Some; congruence]|].
      split; [assumption|].
      intros q' Hq'. apply in_app_or in Hq' as [Hq'|[<-|[]]]; [auto|lra].
Qed.

Lemma select_loop_result (mode : AppState) (ndcX ndcY : R) (ps : list ParticleData) :
  ps <> [] ->
  sel_inv project mode ndcX ndcY ps (select_loop project mode ndcX ndcY ps 0 (None, (-1)%Z)).
Proof.
  intros Hne. destruct ps as [|p rest]; [congruence|].
  rewrite select_loop_cons. simpl fst. cbv iota.
  change (0 + 1)%Z with (Z.of_nat (length [p])).
  change (p :: rest) with ([p] ++ rest).
  apply select_loop_inv.
  exists (loop_dist project mode ndcX ndcY p), 0%nat, p. repeat split.
  intros q [<-|[]]. lra.
Qed.

Lemma sel_distance_loop_dist (mode : AppState) (hand : HandTrackingResult) (p : ParticleData) :
  sel_distance project mode hand p =
  loop_dist project mode (fst (position hand) * 2 - 1) (- (snd (position hand) * 2) + 1) p.
Proof.
  unfold sel_distance, loop_dist. destruct (position hand) as [hx hy]. simpl.
  replace (if appstate_eqb mode TREE then treePos p else scatterPos p) with (anchor mode p)
    by (destruct mode; reflexivity).
  destruct (project (anchor mode p)) as [qx qy]. f_equal. ring.
Qed.

Lemma select_frame_spec (mode : AppState) (hand : HandTrackingResult) (ps : list ParticleData) :
  mode <> ZOOM -> isPresent hand = true ->
  (select_frame project mode hand ps = None <->
     forall p, In p ps -> 4/10 <= sel_distance project mode hand p) /\
  (forall i, select_frame project mode hand ps = Some i ->
     exists j p, i = Z.of_nat j /\ nth_error ps j = Some p /\
       sel_distance project mode hand p < 4/10 /\
       forall q, In q ps -> sel_distance project mode hand p <= sel_distance project mode hand q).
Proof.
  intros Hmode Hpres.
  destruct (position hand) as [hx hy] eqn:Hpos.
  assert (HD : forall p, sel_distance project mode hand p =
                         loop_dist project mode (hx * 2 - 1) (- (hy * 2) + 1) p).
  { intros p. rewrite sel_distance_loop_dist, Hpos. reflexivity. }
  unfold select_frame.
  replace (appstate_eqb mode ZOOM) with false
    by (unfold appstate_eqb; destruct (AppState_eq_dec mode ZOOM); congruence).
  rewrite Hpres, Hpos. simpl negb. cbv iota.
  destruct (Nat.eqb_spec (length ps) 0) as [H0|H0].
  - apply length_zero_iff_nil in H0. subst ps.
    simpl. split; [split; [intros _ q []|reflexivity]|discriminate].
  - simpl orb. cbv iota.
    assert (Hne : ps <> []) by (intros ->; apply H0; reflexivity).
    destruct (select_loop_result mode (hx * 2 - 1) (- (hy * 2) + 1) ps Hne)
      as (m & j & p & Hacc & Hj & Hd & Hmin).
    rewrite Hacc.
    assert (Hj1 : (Z.of_nat j =? -1)%Z = false) by (apply Z.eqb_neq; lia).
    rewrite Hj1. unfold Rltb.
    destruct (Rlt_dec m (4/10)) as [Hlt|Hge]; simpl andb; cbv iota.
    + split.
      * split; [discriminate|]. intros Hall.
        specialize (Hall p (nth_error_In _ _ Hj)). rewrite HD in Hall. lra.
      * intros i Hi. injection Hi as <-. exists j, p.
        split; [reflexivity|]. split; [assumption|].
        rewrite !HD, Hd. split; [assumption|].
        intros q Hq. rewrite HD. auto.
    + split; [|discriminate].
      split; [|reflexivity]. intros _ q Hq. rewrite HD.
      specialize (Hmin q Hq). lra.
Qed.

End SelectionProofs.

(** C6: when the selection frame runs (mode not FOCUSED, hand present), the
    pointer maps to [ndcX = 2px - 1], [ndcY = 1 - 2py], each photo's
    mode-relevant anchor is projected, and the callback receives the index
    of a photo of minimum projected distance exactly when that minimum is
    below 0.4; otherwise nothing is reported. *)
Theorem selection_nearest_below_threshold :
  forall (project : Vec3 -> R * R) (mode : AppState) (hand : HandTrackingResult)
         (ps : list ParticleData),
  mode <> ZOOM -> isPresent hand = true ->
  (select_frame project mode hand ps = None <->
     forall p, In p ps -> 4/10 <= sel_distance project mode hand p) /\
  (forall i, select_frame project mode hand ps = Some i ->
     exists j p, i = Z.of_nat j /\ nth_error ps j = Some p /\
       sel_distance project mode hand p < 4/10 /\
       forall q, In q ps -> sel_distance project mode hand p <= sel_distance project mode hand q).
Proof. intros project mode hand ps Hm Hp. apply select_frame_spec; assumption. Qed.

Lemma select_in_tree_reports :
  select_frame ortho TREE hand_center [photo0] = Some 0%Z.
Proof.
  assert (Hd : sel_distance ortho TREE hand_center photo0 = 0).
  { unfold sel_distance. cbn. transitivity (sqrt 0); [f_equal; field|apply sqrt_0]. }
  destruct (select_frame_spec ortho TREE hand_center [photo0]) as [Hnone Hsome];
    [discriminate|reflexivity|].
  destruct (select_frame ortho TREE hand_center [photo0]) as [i|] eqn:E.
  - destruct (Hsome i eq_refl) as (j & p & -> & Hj & _).
    destruct j as [|j]; [reflexivity|destruct j; discriminate].
  - exfalso. specialize (proj1 Hnone eq_refl photo0 (or_introl eq_refl)).
    rewrite Hd. lra.
Qed.

(** In [TREE] the selection loop is the [SCATTER] loop run over the same
    photos with their assembled anchors ([treePos]) in place of the
    scattered ones. *)
Lemma select_loop_tree_as_scatter (project : Vec3 -> R * R) (ndcX ndcY : R)
    (ps : list ParticleData) (i : Z) (acc : option R * Z) :
  select_loop project TREE ndcX ndcY ps i acc =
  select_loop project SCATTER ndcX ndcY (map (fun p => with_scatterPos p (treePos p)) ps) i acc.
Proof.
  revert i acc. induction ps as [|p t IH]; intros i acc; [reflexivity|].
  cbn [select_loop map]. unfold with_scatterPos. cbn [treePos scatterPos].
  replace (appstate_eqb TREE TREE) with true by reflexivity.
  replace (appstate_eqb SCATTER TREE) with false by reflexivity.
  destruct (project (treePos p)) as [qx qy]. apply IH.
Qed.

Lemma select_frame_tree_as_scatter (project : Vec3 -> R * R) (hand : HandTrackingResult)
    (ps : list ParticleData) :
  select_frame project TREE hand ps =
  select_frame project SCATTER hand (map (fun p => with_scatterPos p (treePos p)) ps).
Proof.
  unfold select_frame. rewrite length_map.
  replace (appstate_eqb TREE ZOOM) with false by reflexivity.
  replace (appstate_eqb SCATTER ZOOM) with false by reflexivity.
  destruct (negb (isPresent hand) || (length ps =? 0)%nat); [reflexivity|].
  destruct (position hand) as [hx hy].
  rewrite select_loop_tree_as_scatter. reflexivity.
Qed.

(** C1 (as stated): with the display in ASSEMBLED ([TREE]), a present hand
    over a photo's assembled anchor is reported as a selection. *)
Lemma selection_in_assembled_counterexample :
  select_frame ortho TREE hand_center [photo0] = Some 0%Z.
Proof. exact select_in_tree_reports. Qed.

(** C1 (amended): no selection is ever reported in FOCUSED ([ZOOM]); a
    selection is reported only when the mode is not FOCUSED, a hand is
    present and at least one photo exists; and in ASSEMBLED ([TREE]) the
    selection runs as in SCATTERED, on every frame, over the photos with
    their assembled anchors ([treePos]) projected in place of the
    scattered ones (so it can report there). *)
Theorem selection_suspended_in_focus :
  (forall (project : Vec3 -> R * R) (hand : HandTrackingResult) (ps : list ParticleData),
     select_frame project ZOOM hand ps = None) /\
  (forall (project : Vec3 -> R * R) (mode : AppState) (hand : HandTrackingResult)
          (ps : list ParticleData) (i : Z),
     select_frame project mode hand ps = Some i ->
     mode <> ZOOM /\ isPresent hand = true /\ ps <> []) /\
  (forall (project : Vec3 -> R * R) (hand : HandTrackingResult) (ps : list ParticleData),
     select_frame project TREE hand ps =
     select_frame project SCATTER hand (map (fun p => with_scatterPos p (treePos p)) ps)) /\
  (exists (project : Vec3 -> R * R) (hand : HandTrackingResult) (ps : list ParticleData) (i : Z),
     select_frame project TREE hand ps = Some i).
Proof.
  split; [|split; [|split]].
  - intros; reflexivity.
  - intros project mode hand ps i H. unfold select_frame in H.
    destruct mode; [| |discriminate];
      (destruct (isPresent hand); [|discriminate]);
      (destruct ps; [discriminate|]);
      repeat split; discriminate.
  - exact select_frame_tree_as_scatter.
  - exists ortho, hand_center, [photo0], 0%Z. exact select_in_tree_reports.
Qed.

(** ** Mode state machine *)

Lemma absent_output_none (s : Stabilizer) (f : RawFrame) :
  isPresent (snd (stabilize s f)) = false -> gesture (snd (stabilize s f)) = NONE.
Proof.
  destruct f as [[[g rawX] rawY]|]; intros Hp; [|reflexivity].
  destruct (output_step s g rawX rawY) as [_ Hp']. congruence.
Qed.

Lemma proxy_present (a : AppModel) (r : HandTrackingResult) :
  isPresent r = true ->
  appState (onHandUpdateProxy a r) =
    mode_spec (appState a) (currentGesture a) (gesture r) (length (photos a)).
Proof.
  intros Hp. unfold onHandUpdateProxy, mode_spec.
  destruct (gesture_eqb (currentGesture a) (gesture r)); [reflexivity|].
  unfold gesture_transition. rewrite Hp.
  destruct (gesture r), (appState a); reflexivity.
Qed.

Lemma proxy_absent (a : AppModel) (r : HandTrackingResult) :
  isPresent r = false -> gesture r = NONE ->
  appState (onHandUpdateProxy a r) = appState a.
Proof.
  intros Hp Hg. unfold onHandUpdateProxy, gesture_transition. rewrite Hp.
  destruct (gesture_eqb (currentGesture a) (gesture r)); reflexivity.
Qed.

Lemma proxy_gesture (a : AppModel) (r : HandTrackingResult) :
  currentGesture (onHandUpdateProxy a r) = gesture r /\ photos (onHandUpdateProxy a r) = photos a.
Proof.
  unfold onHandUpdateProxy. unfold gesture_eqb.
  destruct (HandGesture_eq_dec (currentGesture a) (gesture r)); simpl; auto.
Qed.

(** C2: the machine starts in ASSEMBLED ([TREE]) with no gesture seen;
    on each capture tick the new mode is [mode_spec]: unchanged unless the
    emitted gesture differs from the previous one (an edge); a FIST edge
    goes to ASSEMBLED, an OPEN_PALM edge to SCATTERED, a TWO_FINGERS edge to
    FOCUSED exactly from SCATTERED with at least one photo, anything else
    leaves the mode unchanged. *)
Theorem mode_machine_edges :
  appState app_init = TREE /\ currentGesture app_init = NONE /\
  forall (s : Stabilizer) (a : AppModel) (f : RawFrame),
    let r := snd (stabilize s f) in
    let a' := snd (capture_tick (s, a) f) in
    appState a' = mode_spec (appState a) (currentGesture a) (gesture r) (length (photos a)) /\
    currentGesture a' = gesture r /\ photos a' = photos a.
Proof.
  split; [reflexivity|]. split; [reflexivity|].
  intros s a f r a'.
  assert (Ha' : a' = onHandUpdateProxy a r).
  { subst a' r. unfold capture_tick. destruct (stabilize s f); reflexivity. }
  rewrite Ha'. destruct (proxy_gesture a r) as [Hg Hph].
  split; [|split; assumption].
  destruct (isPresent r) eqn:Hp.
  - apply proxy_present; assumption.
  - pose proof (absent_output_none s f Hp) as Hn. fold r in Hn.
    rewrite (proxy_absent a r Hp Hn), Hn.
    unfold mode_spec. destruct (gesture_eqb (currentGesture a) NONE); reflexivity.
Qed.

(** The sequence of the specification: OPEN_PALM, TWO_FINGERS, FIST edges
    with one photo pass through SCATTERED and FOCUSED back to ASSEMBLED;
    with no photo the TWO_FINGERS edge is ignored. *)
Example mode_sequence_with_photo :
  let a0 := mkApp TREE [String.EmptyString] true NONE 0 (present NONE) in
  let a1 := onHandUpdateProxy a0 (present OPEN_PALM) in
  let a2 := onHandUpdateProxy a1 (present TWO_FINGERS) in
  let a3 := onHandUpdateProxy a2 (present FIST) in
  appState a1 = SCATTER /\ appState a2 = ZOOM /\ appState a3 = TREE.
Proof. repeat split. Qed.

Example mode_sequence_without_photo :
  let a0 := mkApp TREE [] true NONE 0 (present NONE) in
  let a1 := onHandUpdateProxy a0 (present OPEN_PALM) in
  let a2 := onHandUpdateProxy a1 (present TWO_FINGERS) in
  appState a1 = SCATTER /\ appState a2 = SCATTER.
Proof. repeat split. Qed.

(** ** Clear-all *)

(** C10: [clearPhotos] empties the photo list, resets the selection index to
    0 and leaves the mode, presence, gesture and hand data unchanged. *)
Theorem clearPhotos_keeps_mode :
  forall a : AppModel,
    photos (clearPhotos a) = [] /\ activePhotoIndex (clearPhotos a) = 0%nat /\
    appState (clearPhotos a) = appState a /\
    isHandPresent (clearPhotos a) = isHandPresent a /\
    currentGesture (clearPhotos a) = currentGesture a /\
    handData (clearPhotos a) = handData a.
Proof. intros a. repeat split. Qed.

Example clearPhotos_in_focus :
  appState (clearPhotos (mkApp ZOOM [String.EmptyString] true TWO_FINGERS 0 (present TWO_FINGERS)))
  = ZOOM.
Proof. reflexivity. Qed.

(** ** Object animator *)

Lemma chase3_step_norm (c t : Vec3) (rate dt : R) :
  0 <= rate * dt ->
  vnorm (vsub (chase3 c t rate dt) c) = rate * dt * vnorm (vsub t c).
Proof.
  intros Hk. unfold vnorm, vsub, chase3. simpl.
  set (k := rate * dt) in *.
  replace ((vx c + (vx t - vx c) * rate * dt - vx c) * (vx c + (vx t - vx c) * rate * dt - vx c) +
           (vy c + (vy t - vy c) * rate * dt - vy c) * (vy c + (vy t - vy c) * rate * dt - vy c) +
           (vz c + (vz t - vz c) * rate * dt - vz c) * (vz c + (vz t - vz c) * rate * dt - vz c))
    with ((k * k) * ((vx t - vx c) * (vx t - vx c) + (vy t - vy c) * (vy t - vy c) +
                     (vz t - vz c) * (vz t - vz c))) by (subst k; ring).
  rewrite sqrt_mult_alt by (apply Rle_0_sqr).
  rewrite sqrt_square by assumption. reflexivity.
Qed.

Lemma ornament_step_pos (mode : AppState) (time delta : R) (d : ParticleData) (c : Vec3) (cs : R) :
  fst (fst (ornament_step mode time delta d (c, cs))) =
    chase3 c (ornament_target mode time d) (match mode with TREE => 3 | _ => 2 end) delta /\
  snd (fst (ornament_step mode time delta d (c, cs))) =
    cs + (scale d * (match mode with ZOOM => 1/2 | _ => 1 end) - cs) * 3 * delta /\
  snd (ornament_step mode time delta d (c, cs)) =
    mkVec3 (vx (rotationSpeed d) * time) (vy (rotationSpeed d) * time) 0.
Proof.
  unfold ornament_step, chase3, lerp.
  destruct mode; simpl; (split; [f_equal; ring|split; [ring|reflexivity]]).
Qed.

Lemma photo_step_parts (atan2 : R -> R -> R) (look_at : Vec3 -> Vec3 -> Vec3)
    (mode : AppState) (isSelected : bool) (camPos : Vec3) (time delta : R)
    (d : ParticleData) (cur : PhotoTransform) :
  let '(tp, ts, tr) := photo_target atan2 mode isSelected time d in
  let n := photo_step atan2 look_at mode isSelected camPos time delta d cur in
  ppos n = chase3 (ppos cur) tp 3 delta /\
  pscale n = pscale cur + (ts - pscale cur) * 4 * delta /\
  prot n = (if appstate_eqb mode ZOOM && isSelected then look_at (ppos n) camPos
            else chase3 (prot cur) tr 3 delta).
Proof.
  unfold photo_step.
  destruct (photo_target atan2 mode isSelected time d) as [[tp ts] tr]. simpl.
  assert (Hp : vlerp (ppos cur) tp (delta * 3) = chase3 (ppos cur) tp 3 delta)
    by (unfold vlerp, chase3; f_equal; ring).
  rewrite Hp. split; [reflexivity|]. split; [unfold lerp; ring|].
  destruct (appstate_eqb mode ZOOM && isSelected); [reflexivity|].
  unfold chase3, lerp. f_equal; ring.
Qed.

(** C7 (as stated): a photo's position is chased at the same rate in
    ASSEMBLED as in SCATTERED: from the same distance it moves the same
    step (rate 3 in both modes), so ASSEMBLED is not faster for photos. *)
Lemma photo_rate_counterexample :
  let d := mkParticle 1000 origin (mkVec3 1 0 0) (mkVec3 1 0 0) 1 origin in
  let cur := mkPT origin origin 1 in
  let at2 := fun _ _ : R => 0 in
  let look := fun _ _ : Vec3 => origin in
  vx (ppos (photo_step at2 look TREE false origin 0 (1/10) d cur)) = 3/10 /\
  vx (ppos (photo_step at2 look SCATTER false origin 0 (1/10) d cur)) = 3/10.
Proof. simpl. split; field. Qed.

(** C7 (amended): every object position is chased by
    [current += (target - current) * rate * delta] (ornaments: rate 3 in
    ASSEMBLED, 2 otherwise; photos: rate 3 in every mode), scale by its own
    rate independent of the mode (3 for ornaments, 4 for photos), so the
    per-frame position change is exactly rate * delta times the distance to
    the target (no teleport). Rotation is not always chased: an ornament's
    rotation is set to spin * time, and the selected photo in FOCUSED is
    turned to face the camera in one frame; other photo rotations are
    chased at rate 3. *)
Theorem animator_chases_targets :
  (forall (mode : AppState) (time delta : R) (d : ParticleData) (c : Vec3) (cs : R),
    let rate := match mode with TREE => 3 | _ => 2 end in
    let n := ornament_step mode time delta d (c, cs) in
    fst (fst n) = chase3 c (ornament_target mode time d) rate delta /\
    snd (fst n) = cs + (scale d * (match mode with ZOOM => 1/2 | _ => 1 end) - cs) * 3 * delta /\
    snd n = mkVec3 (vx (rotationSpeed d) * time) (vy (rotationSpeed d) * time) 0 /\
    (0 <= delta ->
       vnorm (vsub (fst (fst n)) c) = rate * delta * vnorm (vsub (ornament_target mode time d) c))) /\
  (forall (atan2 : R -> R -> R) (look_at : Vec3 -> Vec3 -> Vec3) (mode : AppState)
          (isSelected : bool) (camPos : Vec3) (time delta : R) (d : ParticleData)
          (cur : PhotoTransform),
    let t := photo_target atan2 mode isSelected time d in
    let n := photo_step atan2 look_at mode isSelected camPos time delta d cur in
    ppos n = chase3 (ppos cur) (fst (fst t)) 3 delta /\
    pscale n = pscale cur + (snd (fst t) - pscale cur) * 4 * delta /\
    prot n = (if appstate_eqb mode ZOOM && isSelected then look_at (ppos n) camPos
              else chase3 (prot cur) (snd t) 3 delta) /\
    (0 <= delta -> vnorm (vsub (ppos n) (ppos cur)) = 3 * delta * vnorm (vsub (fst (fst t)) (ppos cur)))).
Proof.
  split.
  - intros mode time delta d c cs rate n.
    destruct (ornament_step_pos mode time delta d c cs) as (Hp & Hs & Hr).
    subst n. rewrite Hp. split; [reflexivity|]. split; [exact Hs|]. split; [exact Hr|].
    intros Hd. apply chase3_step_norm. subst rate. destruct mode; lra.
  - intros atan2 look_at mode isSelected camPos time delta d cur t n.
    subst t n.
    generalize (photo_step_parts atan2 look_at mode isSelected camPos time delta d cur).
    destruct (photo_target atan2 mode isSelected time d) as [[tp ts] tr]. simpl.
    intros (Hp & Hs & Hr). rewrite Hr.
    split; [exact Hp|]. split; [exact Hs|]. split; [reflexivity|].
    intros Hd. rewrite Hp. apply chase3_step_norm. lra.
Qed.

(** C3: [detectGesture] returns [NONE] exactly on an absent or empty input;
    on a 21-point landmark set it folds each non-thumb finger by
    [dist(tip, wrist) < 1.1 * dist(pip, wrist)] and returns TWO_FINGERS,
    FIST or OPEN_PALM by the rule of the specification, and the thumb
    landmarks (1 to 4) never change the result. *)
Theorem detectGesture_classification :
  detectGesture None = Some NONE /\ detectGesture (Some []) = Some NONE /\
  forall l : list Point, length l = 21%nat ->
    detectGesture (Some l) =
      Some (classify_spec (folded_spec l 8 6) (folded_spec l 12 10)
                          (folded_spec l 16 14) (folded_spec l 20 18)) /\
    detectGesture (Some l) <> Some NONE /\
    forall (i : nat) (p : Point), (1 <= i <= 4)%nat ->
      detectGesture (Some (set_nth i p l)) = detectGesture (Some l).
Proof.
  split; [reflexivity|]. split; [reflexivity|].
  intros l Hl. rewrite (detectGesture_21 l Hl).
  split; [reflexivity|]. split.
  - intros H. injection H. apply classify_spec_not_none.
  - intros i p Hi. rewrite detectGesture_21 by (rewrite set_nth_length; exact Hl).
    rewrite !folded_spec_set_thumb by lia. reflexivity.
Qed.

(** ** Witnesses: the theorems applied at concrete inputs *)

Lemma detectGesture_classification_witness :
  length hand21 = 21%nat /\
  detectGesture (Some (set_nth 2%nat (mkPoint 1 1) hand21)) = detectGesture (Some hand21).
Proof.
  split; [reflexivity|].
  apply (proj2 (proj2 (proj2 (proj2 detectGesture_classification) hand21 eq_refl)) 2%nat (mkPoint 1 1)).
  lia.
Defined.

Lemma stabilizer_debounce_witness :
  (length (gestureHistory stab_init) <= 5)%nat /\
  lastEmittedGesture
    (stab_run stab_init (map (fun p => Some (FIST, fst p, snd p))
       [(0, 0); (0, 0); (0, 0); (0, 0); (0, 0)])) = FIST.
Proof.
  split; [simpl; lia|].
  apply (proj2 (proj2 stabilizer_debounce stab_init FIST [(0, 0); (0, 0); (0, 0); (0, 0); (0, 0)]
                  (le_S _ _ (le_S _ _ (le_S _ _ (le_S _ _ (le_S _ _ (le_n 0)))))) eq_refl)).
Defined.

Lemma presence_loss_immediate_witness :
  isPresent (snd (stabilize stab_init None)) = false /\
  gesture (snd (stabilize stab_init None)) = NONE.
Proof.
  split; [reflexivity|].
  apply (proj2 presence_loss_immediate stab_init None). reflexivity.
Defined.

Lemma selection_nearest_below_threshold_witness :
  SCATTER <> ZOOM /\ isPresent hand_center = true /\
  (select_frame ortho SCATTER hand_center [photo0] = None <->
     forall p, In p [photo0] -> 4/10 <= sel_distance ortho SCATTER hand_center p).
Proof.
  split; [discriminate|]. split; [reflexivity|].
  apply (proj1 (selection_nearest_below_threshold ortho SCATTER hand_center [photo0]
                  ltac:(discriminate) eq_refl)).
Defined.

Lemma selection_suspended_in_focus_witness :
  select_frame ortho TREE hand_center [photo0] = Some 0%Z /\
  (TREE <> ZOOM /\ isPresent hand_center = true /\ [photo0] <> []).
Proof.
  split; [exact select_in_tree_reports|].
  apply (proj1 (proj2 selection_suspended_in_focus) ortho TREE hand_center [photo0] 0%Z).
  exact select_in_tree_reports.
Defined.

Lemma dominant_tie_break_last_witness :
  [FIST; OPEN_PALM] <> [] /\
  (count_occ HandGesture_eq_dec [FIST; OPEN_PALM] FIST < 3)%nat.
Proof.
  split; [discriminate|].
  apply (proj2 (dominant_tie_break_last [FIST; OPEN_PALM] ltac:(discriminate))
           ltac:(simpl; lia) FIST OPEN_PALM ltac:(discriminate) eq_refl).
Defined.

Lemma smoothing_geometric_witness :
  0 < 1/100 /\
  exists N : nat, forall gs : list HandGesture, (N <= length gs)%nat ->
    let s' := stab_run stab_init (map (fun g => Some (g, 0, 0)) gs) in
    Rabs (fst (prevPosition s') - 0) < 1/100 /\ Rabs (snd (prevPosition s') - 0) < 1/100.
Proof.
  split; [lra|].
  apply (proj2 (proj2 smoothing_geometric) stab_init 0 0 (1/100)). lra.
Defined.

Lemma animator_chases_targets_witness :
  0 <= 1/60 /\
  vnorm (vsub (fst (fst (ornament_step TREE 0 (1/60) photo0 (origin, 1)))) origin) =
    3 * (1/60) * vnorm (vsub (ornament_target TREE 0 photo0) origin).
Proof.
  split; [lra|].
  apply (proj2 (proj2 (proj2 (proj1 animator_chases_targets TREE 0 (1/60) photo0 origin 1)))).
  lra.
Defined.

(** * Further properties of the code *)

Lemma stabilize_absent_state (s : Stabilizer) :
  fst (stabilize s None) = mkStab (prevPosition s) [] NONE.
Proof. reflexivity. Qed.

Lemma stabilize_output_position (s : Stabilizer) (f : RawFrame) :
  position (snd (stabilize s f)) = prevPosition (fst (stabilize s f)).
Proof.
  destruct f as [[[g rx] ry]|]; [|reflexivity].
  unfold stabilize. destruct (prevPosition s). reflexivity.
Qed.

(** X1: from a state whose gesture window holds at most 5 labels (as [stab_init] does), every run of [onResults] frames keeps the window at 5 labels or fewer. *)
Theorem stab_history_bounded (s : Stabilizer) (fs : list RawFrame) :
  (length (gestureHistory s) <= 5)%nat ->
  (length (gestureHistory (stab_run s fs)) <= 5)%nat.
Proof.
  revert s; induction fs as [|f fs IH]; intros s Hs; [exact Hs|].
  rewrite stab_run_cons. apply IH.
  destruct f as [[[g rx] ry]|].
  - rewrite history_step. now apply push_history_length.
  - rewrite stabilize_absent_state. simpl. lia.
Qed.

Lemma stabilize_in_box (lo hi : R) (s : Stabilizer) (f : RawFrame) :
  in_box lo hi (prevPosition s) -> frame_in_box lo hi f ->
  in_box lo hi (prevPosition (fst (stabilize s f))).
Proof.
  intros [Hx Hy] Hf. destruct f as [[[g rx] ry]|]; [|exact (conj Hx Hy)].
  destruct Hf as [Hrx Hry]. rewrite position_step. unfold in_box. simpl. lra.
Qed.

(** X2: the smoothed position never leaves a box [[lo, hi]] x [[lo, hi]] that holds the previous position and every raw position of the run. *)
Theorem stab_position_in_box (lo hi : R) (s : Stabilizer) (fs : list RawFrame) :
  in_box lo hi (prevPosition s) -> Forall (frame_in_box lo hi) fs ->
  in_box lo hi (prevPosition (stab_run s fs)).
Proof.
  revert s; induction fs as [|f fs IH]; intros s Hs Hfs; [exact Hs|].
  inversion Hfs; subst. rewrite stab_run_cons. apply IH; auto.
  now apply stabilize_in_box.
Qed.

(** X3: with a 21-landmark first hand, [onResults] classifies that hand, takes landmark 9 (the palm) mirrored horizontally ([1 - x], [y]) as the raw position, ignores any further hands and emits the stabilized result. *)
Theorem onResults_first_hand (s : Stabilizer) (l : list Point) (rest : list (list Point)) :
  length l = 21%nat ->
  onResults true s (Some (l :: rest)) =
    let palm := nth 9 l (mkPoint 0 0) in
    let '(s', r) :=
      stabilize s (Some (classify_spec (folded_spec l 8 6) (folded_spec l 12 10)
                                       (folded_spec l 16 14) (folded_spec l 20 18),
                         1 - x palm, y palm)) in
    Some (s', Some r).
Proof.
  intros Hl. unfold onResults, raw_frame. rewrite (detectGesture_21 l Hl).
  rewrite (nth_error_nth_lt l 9 (mkPoint 0 0)) by lia.
  destruct (stabilize _ _); reflexivity.
Qed.

(** X5: a first hand with fewer than 21 landmarks makes [onResults] throw (a missing landmark is read, or [palm] is [undefined]). *)
Theorem onResults_short_hand_throws (s : Stabilizer) (l : list Point) (rest : list (list Point)) :
  (length l < 21)%nat -> onResults true s (Some (l :: rest)) = None.
Proof.
  intros Hl. unfold onResults, raw_frame.
  destruct l as [|w t]; [reflexivity|].
  assert (H20 : isFingerFolded (w :: t) w 20 18 = None).
  { unfold isFingerFolded. now rewrite (proj2 (nth_error_None (w :: t) 20) ltac:(lia)). }
  unfold detectGesture. rewrite H20.
  destruct (isFingerFolded (w :: t) w 8 6) as [[]|], (isFingerFolded (w :: t) w 12 10) as [[]|],
    (isFingerFolded (w :: t) w 16 14) as [[]|]; reflexivity.
Qed.

(** X6: when the previous position and every landmark lie in the unit square, the position [onResults] emits lies in the unit square and is the one it stores. *)
Theorem onResults_position_in_unit_square (s s' : Stabilizer) (hands : list (list Point))
    (r : HandTrackingResult) :
  in_box 0 1 (prevPosition s) ->
  Forall (Forall (fun p => 0 <= x p <= 1 /\ 0 <= y p <= 1)) hands ->
  onResults true s (Some hands) = Some (s', Some r) ->
  prevPosition s' = position r /\ in_box 0 1 (position r).
Proof.
  intros Hs Hh Hr. unfold onResults in Hr.
  destruct (raw_frame (Some hands)) as [f|] eqn:Ef; [|discriminate].
  assert (Hf : frame_in_box 0 1 f).
  { unfold raw_frame in Ef. destruct hands as [|l rest]; [injection Ef as <-; exact I|].
    inversion Hh as [|l0 rest0 Hl _]; subst.
    destruct (detectGesture (Some l)) as [g|]; [|discriminate].
    assert (Hin : forall k p, nth_error l k = Some p -> 0 <= x p <= 1 /\ 0 <= y p <= 1).
    { intros k p Hk. rewrite Forall_forall in Hl. apply Hl. eapply nth_error_In; eauto. }
    destruct (nth_error l 9) as [p|] eqn:E9.
    - injection Ef as <-. destruct (Hin _ _ E9). simpl. lra.
    - destruct (nth_error l 0) as [p|] eqn:E0; [|discriminate].
      injection Ef as <-. destruct (Hin _ _ E0). simpl. lra. }
  destruct (stabilize s f) as [s1 r1] eqn:Es. injection Hr as <- <-.
  pose proof (stabilize_output_position s f) as Hp. rewrite Es in Hp. simpl in Hp.
  split; [symmetry; exact Hp|]. rewrite Hp.
  pose proof (stabilize_in_box 0 1 s f Hs Hf) as Hb. rewrite Es in Hb. exact Hb.
Qed.

(** X7: on a present frame the emitted gesture is either the previously emitted one or a label of the new window: the stabilizer never emits a label it has not just seen. *)
Theorem emitted_from_window (s : Stabilizer) (g : HandGesture) (rawX rawY : R) :
  let s' := fst (stabilize s (Some (g, rawX, rawY))) in
  lastEmittedGesture s' = lastEmittedGesture s \/ In (lastEmittedGesture s') (gestureHistory s').
Proof.
  cbv zeta. rewrite emitted_step, history_step.
  set (h := push_history (gestureHistory s) g).
  destruct (dominant_of (counts_of h)) as [r|] eqn:Ed; [|left; reflexivity].
  destruct (3 <=? lookup (counts_of h) r)%nat; [right|left; reflexivity].
  apply keys_counts_of. unfold dominant_of in Ed.
  destruct (map fst (counts_of h)) as [|k0 ks]; [discriminate|].
  injection Ed as <-.
  destruct (reduce_last_max (lookup (counts_of h)) ks k0) as (pre & post & Heq & _).
  rewrite Heq. apply in_elt.
Qed.

(** X8: after a hand loss the first two present frames emit [NONE] whatever their labels, and three frames of one label [g] emit [g]. *)
Theorem reacquire_after_loss :
  (forall (s : Stabilizer) (g1 g2 : HandGesture) (x1 y1 x2 y2 : R),
     let s0 := fst (stabilize s None) in
     let '(s1, r1) := stabilize s0 (Some (g1, x1, y1)) in
     let r2 := snd (stabilize s1 (Some (g2, x2, y2))) in
     gesture r1 = NONE /\ isPresent r1 = true /\ gesture r2 = NONE /\ isPresent r2 = true) /\
  (forall (s : Stabilizer) (g : HandGesture) (x1 y1 x2 y2 x3 y3 : R),
     let s0 := fst (stabilize s None) in
     let s1 := fst (stabilize s0 (Some (g, x1, y1))) in
     let s2 := fst (stabilize s1 (Some (g, x2, y2))) in
     gesture (snd (stabilize s2 (Some (g, x3, y3)))) = g).
Proof.
  split.
  - intros [[px py] h e] g1 g2 x1 y1 x2 y2.
    destruct g1, g2; cbn; repeat split; reflexivity.
  - intros [[px py] h e] g x1 y1 x2 y2 x3 y3.
    destruct g; reflexivity.
Qed.

(** X9: [onHandUpdateProxy] enters [ZOOM] only from [SCATTER], with at least one photo, on a present [TWO_FINGERS] that differs from the previous gesture. *)
Theorem zoom_entry (a : AppModel) (r : HandTrackingResult) :
  appState a <> ZOOM -> appState (onHandUpdateProxy a r) = ZOOM ->
  appState a = SCATTER /\ photos a <> [] /\ isPresent r = true /\
  gesture r = TWO_FINGERS /\ currentGesture a <> TWO_FINGERS.
Proof.
  intros Hnz Hz. unfold onHandUpdateProxy in Hz.
  destruct (gesture_eqb (currentGesture a) (gesture r)) eqn:Eg; simpl in Hz; [contradiction|].
  unfold gesture_transition in Hz.
  destruct (isPresent r); [|contradiction].
  assert (Hne : currentGesture a <> gesture r).
  { intros E. rewrite E in Eg. unfold gesture_eqb in Eg.
    destruct (HandGesture_eq_dec (gesture r) (gesture r)); congruence. }
  destruct (gesture r), (appState a); simpl in Hz; try discriminate; try contradiction.
  destruct (photos a) as [|p ps]; simpl in Hz; [contradiction|].
  repeat split; auto; discriminate.
Qed.

(** X10: [onHandUpdateProxy] leaves [ZOOM] only on a present, changed gesture: [FIST] (to [TREE]) or [OPEN_PALM] (to [SCATTER]). *)
Theorem zoom_exit (a : AppModel) (r : HandTrackingResult) :
  appState a = ZOOM -> appState (onHandUpdateProxy a r) <> ZOOM ->
  isPresent r = true /\ currentGesture a <> gesture r /\
  (gesture r = FIST /\ appState (onHandUpdateProxy a r) = TREE \/
   gesture r = OPEN_PALM /\ appState (onHandUpdateProxy a r) = SCATTER).
Proof.
  intros Hz Hnz. unfold onHandUpdateProxy in *.
  destruct (gesture_eqb (currentGesture a) (gesture r)) eqn:Eg; simpl in *; [contradiction|].
  assert (Hne : currentGesture a <> gesture r).
  { intros E. rewrite E in Eg. unfold gesture_eqb in Eg.
    destruct (HandGesture_eq_dec (gesture r) (gesture r)); congruence. }
  unfold gesture_transition in *. rewrite Hz in *.
  destruct (isPresent r); [|contradiction].
  destruct (gesture r); simpl in *; try contradiction; auto;
  destruct (0 <? length (photos a))%nat; contradiction.
Qed.

Lemma proxy_keeps_photos (a : AppModel) (r : HandTrackingResult) :
  photos (onHandUpdateProxy a r) = photos a /\
  activePhotoIndex (onHandUpdateProxy a r) = activePhotoIndex a.
Proof. unfold onHandUpdateProxy. destruct (gesture_eqb _ _); split; reflexivity. Qed.

Lemma proxy_absent_mode (a : AppModel) (r : HandTrackingResult) :
  isPresent r = false -> appState (onHandUpdateProxy a r) = appState a.
Proof.
  intros Hp. unfold onHandUpdateProxy, gesture_transition. rewrite Hp.
  destruct (gesture_eqb _ _); reflexivity.
Qed.

(** X11: no sequence of hand updates changes the photo list or the active photo index. *)
Theorem proxy_run_keeps_photos (a : AppModel) (rs : list HandTrackingResult) :
  photos (proxy_run a rs) = photos a /\
  activePhotoIndex (proxy_run a rs) = activePhotoIndex a.
Proof.
  unfold proxy_run. revert a; induction rs as [|r rs IH]; intros a; [split; reflexivity|].
  simpl. destruct (IH (onHandUpdateProxy a r)) as [H1 H2].
  destruct (proxy_keeps_photos a r) as [H3 H4]. split; congruence.
Qed.

(** X12: a sequence of hand updates that are all not present leaves the mode unchanged, whatever gestures they carry. *)
Theorem hand_loss_keeps_mode (a : AppModel) (rs : list HandTrackingResult) :
  Forall (fun r => isPresent r = false) rs ->
  appState (proxy_run a rs) = appState a.
Proof.
  unfold proxy_run. revert a; induction rs as [|r rs IH]; intros a Hrs; [reflexivity|].
  inversion Hrs; subst. simpl. rewrite IH by assumption. now apply proxy_absent_mode.
Qed.

(** X15: in [SCATTER], after an upload of at least one file, a new present [TWO_FINGERS] gesture enters [ZOOM]. *)
Theorem upload_enables_zoom (a : AppModel) (newUrls : list String.string) (r : HandTrackingResult) :
  appState a = SCATTER -> newUrls <> [] -> isPresent r = true ->
  gesture r = TWO_FINGERS -> currentGesture a <> TWO_FINGERS ->
  appState (onHandUpdateProxy (handlePhotoUpload a (Some newUrls)) r) = ZOOM.
Proof.
  intros Hs Hn Hp Hg Hc. destruct newUrls as [|u us]; [contradiction|].
  unfold onHandUpdateProxy, gesture_transition. simpl. rewrite Hg, Hp, Hs.
  unfold gesture_eqb. destruct (HandGesture_eq_dec (currentGesture a) TWO_FINGERS); [contradiction|].
  simpl. rewrite length_app. simpl. destruct (0 <? length (photos a) + S (length us))%nat eqn:E;
    [reflexivity|]. apply Nat.ltb_ge in E. lia.
Qed.

Lemma shuffle_index_le (r : R) (i : nat) :
  0 <= r < 1 -> (shuffle_index r i <= i)%nat.
Proof.
  intros [H0 H1]. unfold shuffle_index, js_floor.
  destruct (base_Int_part (r * INR (i + 1))) as [Hle _].
  assert (Hpos : 0 < INR (i + 1)) by (apply lt_0_INR; lia).
  assert (Hlt : IZR (Int_part (r * INR (i + 1))) < IZR (Z.of_nat (i + 1))).
  { rewrite <- INR_IZR_INZ. nra. }
  apply lt_IZR in Hlt. lia.
Qed.

Lemma set_nth_split {A} (l : list A) (k : nat) (a : A) :
  nth_error l k = Some a ->
  exists l1 l2, l = l1 ++ a :: l2 /\ length l1 = k /\
    forall v, set_nth k v l = l1 ++ v :: l2.
Proof.
  revert k; induction l as [|h t IH]; intros [|k] Hk; try discriminate.
  - injection Hk as ->. exists [], t. repeat split; reflexivity.
  - destruct (IH k Hk) as (l1 & l2 & E & Hlen & Hs).
    exists (h :: l1), l2. subst t. split; [reflexivity|]. split; [simpl; congruence|].
    intros v. simpl. now rewrite Hs.
Qed.

Lemma set_nth_app_l {A} (l1 l2 : list A) (k : nat) (v : A) :
  (k < length l1)%nat -> set_nth k v (l1 ++ l2) = set_nth k v l1 ++ l2.
Proof.
  revert k; induction l1 as [|h t IH]; intros [|k] Hk; simpl in *; try lia; auto.
  now rewrite IH by lia.
Qed.

Lemma swap_at_perm {A} (i j : nat) (arr : list A) :
  (i < length arr)%nat -> (j <= i)%nat -> Permutation (swap_at i j arr) arr.
Proof.
  intros Hi Hj. unfold swap_at.
  destruct (nth_error arr i) as [ai|] eqn:Ei;
    [|apply nth_error_None in Ei; lia].
  destruct (nth_error arr j) as [aj|] eqn:Ej;
    [|apply nth_error_None in Ej; lia].
  destruct (set_nth_split arr i ai Ei) as (l1 & l2 & E & Hlen & Hs).
  rewrite Hs.
  destruct (Nat.eq_dec j i) as [->|Hne].
  - rewrite Ei in Ej. injection Ej as <-.
    assert (Ei' : nth_error (l1 ++ ai :: l2) i = Some ai).
    { rewrite nth_error_app2 by lia. now replace (i - length l1)%nat with 0%nat by lia. }
    destruct (set_nth_split _ i ai Ei') as (m1 & m2 & E' & _ & Hs').
    rewrite Hs', <- E', <- E. reflexivity.
  - assert (Ej1 : nth_error l1 j = Some aj).
    { rewrite E in Ej. rewrite nth_error_app1 in Ej by lia. exact Ej. }
    rewrite set_nth_app_l by lia.
    destruct (set_nth_split l1 j aj Ej1) as (m1 & m2 & E1 & _ & Hs1).
    rewrite Hs1, E, E1. rewrite <- !app_assoc. simpl.
    apply Permutation_app_head.
    apply perm_trans with (ai :: aj :: m2 ++ l2).
    + apply perm_skip. symmetry. apply Permutation_middle.
    + apply perm_trans with (aj :: ai :: m2 ++ l2); [apply perm_swap|].
      apply perm_skip. apply Permutation_middle.
Qed.

Lemma shuffle_loop_perm {A} (rnd : nat -> R) (i : nat) (arr : list A) :
  (forall k, 0 <= rnd k < 1) -> (i = 0 \/ i < length arr)%nat ->
  Permutation (shuffle_loop rnd i arr) arr.
Proof.
  intros Hr. revert arr; induction i as [|i IH]; intros arr Hi; [reflexivity|].
  simpl. assert (Hp : Permutation (swap_at (S i) (shuffle_index (rnd (S i)) (S i)) arr) arr).
  { apply swap_at_perm; [lia|]. now apply shuffle_index_le. }
  eapply perm_trans; [|exact Hp]. apply IH.
  rewrite (Permutation_length Hp). lia.
Qed.

Lemma shuffle_perm {A} (rnd : nat -> R) (array : list A) :
  (forall k, 0 <= rnd k < 1) -> Permutation (shuffle rnd array) array.
Proof.
  intros Hr. unfold shuffle. apply shuffle_loop_perm; [exact Hr|].
  destruct array; simpl; lia.
Qed.

Lemma NoDup_map_inj {A B} (f : A -> B) (l : list A) :
  (forall a b, f a = f b -> a = b) -> NoDup l -> NoDup (map f l).
Proof.
  intros Hf Hl. induction Hl as [|a l Ha Hl IH]; simpl; constructor; auto.
  intros Hin. apply in_map_iff in Hin as (b & Hb & Hinb). apply Hf in Hb. subst. contradiction.
Qed.

Lemma nth_error_seq_lt (n i : nat) : (i < n)%nat -> nth_error (seq 0 n) i = Some i.
Proof.
  intros Hi. rewrite (nth_error_nth_lt _ _ 0%nat) by (rewrite length_seq; lia).
  f_equal. rewrite seq_nth by lia. reflexivity.
Qed.

Lemma nth_error_map_seq {A} (f : nat -> A) (n i : nat) (v : A) :
  nth_error (map f (seq 0 n)) i = Some v -> (i < n)%nat /\ v = f i.
Proof.
  intros H. rewrite nth_error_map in H.
  destruct (Nat.lt_ge_cases i n) as [Hi|Hi].
  - rewrite nth_error_seq_lt in H by exact Hi. injection H as <-. auto.
  - rewrite (proj2 (nth_error_None (seq 0 n) i)) in H by (rewrite length_seq; lia). discriminate.
Qed.

Lemma map_fst_combine {A B} (l1 : list A) (l2 : list B) :
  length l1 = length l2 -> map fst (combine l1 l2) = l1.
Proof.
  revert l2; induction l1 as [|a l1 IH]; intros [|b l2] H; simpl in *; try lia; auto.
  f_equal. apply IH. lia.
Qed.

Lemma map_snd_combine {A B} (l1 : list A) (l2 : list B) :
  length l1 = length l2 -> map snd (combine l1 l2) = l2.
Proof.
  revert l2; induction l1 as [|a l1 IH]; intros [|b l2] H; simpl in *; try lia; auto.
  f_equal. apply IH. lia.
Qed.

Lemma INR_div_bounds (i n : nat) : (i < n)%nat -> 0 <= INR i / INR n < 1.
Proof.
  intros Hi. assert (Hn : 0 < INR n) by (apply lt_0_INR; lia).
  assert (Hin : INR i < INR n) by (apply lt_INR; exact Hi).
  pose proof (pos_INR i). split.
  - unfold Rdiv. apply Rmult_le_pos; [lra|]. left. apply Rinv_0_lt_compat. exact Hn.
  - apply Rmult_lt_reg_r with (INR n); [exact Hn|].
    unfold Rdiv. rewrite Rmult_assoc, Rinv_l by lra. lra.
Qed.

Lemma sin_cos_circle (a r : R) :
  (r * cos a) * (r * cos a) + (r * sin a) * (r * sin a) = r * r.
Proof.
  pose proof (sin2_cos2 a) as H. unfold Rsqr in H.
  replace ((r * cos a) * (r * cos a) + (r * sin a) * (r * sin a))
    with (r * r * (sin a * sin a + cos a * cos a)) by ring.
  rewrite H. ring.
Qed.

Lemma photo_scatter_draw_box (rnd : nat -> R) (i : nat) :
  (forall k, 0 <= rnd k < 1) -> photo_box (photo_scatter_draw rnd i).
Proof.
  intros Hr. unfold photo_box, photo_scatter_draw, photo_scatter_pos. cbn [vx vy vz].
  pose proof (Hr (3 * i)%nat). pose proof (Hr (3 * i + 1)%nat). pose proof (Hr (3 * i + 2)%nat).
  lra.
Qed.

(** X17: the photo particles are one per photo, with ids [1000 + i]; these ids are distinct and never collide with the ornament ids. *)
Theorem photo_ids_distinct (photos : list String.string) (rnd rnd' : nat -> R) :
  length (photo_particles photos rnd) = length photos /\
  map id (photo_particles photos rnd) = map (fun i => INR i + 1000) (seq 0 (length photos)) /\
  NoDup (map id (photo_particles photos rnd) ++ map (fun tp => id (snd tp)) (ornament_particles rnd')).
Proof.
  assert (Hids : map id (photo_particles photos rnd) = map (fun i => INR i + 1000) (seq 0 (length photos))).
  { unfold photo_particles. rewrite map_map. reflexivity. }
  split; [unfold photo_particles; rewrite length_map, length_seq; reflexivity|].
  split; [exact Hids|].
  rewrite Hids. unfold ornament_particles. rewrite map_map.
  rewrite (map_ext (fun a => id (snd (ornament_particle rnd' a))) INR) by reflexivity.
  apply NoDup_app.
  - apply NoDup_map_inj; [|apply seq_NoDup]. intros a b H. apply INR_eq. lra.
  - apply NoDup_map_inj; [|apply seq_NoDup]. intros a b H. now apply INR_eq.
  - intros v Hv Hv'. apply in_map_iff in Hv as (i & <- & _).
    apply in_map_iff in Hv' as (j & Hj & Hjin). apply in_seq in Hjin.
    assert (INR j < 400).
    { replace 400 with (INR 400) by (simpl; lra). apply lt_INR. unfold PARTICLE_COUNT in Hjin. lia. }
    pose proof (pos_INR i). lra.
Qed.

(** X18: photo [i] of [n] sits on its tree slot at horizontal radius [(1 - i/n) * 6 + 2], in [(2, 8]], with height in [(-7.5, 7.5]]. *)
Theorem photo_tree_slot (photos : list String.string) (rnd : nat -> R) (i : nat) (p : ParticleData) :
  nth_error (photo_particles photos rnd) i = Some p ->
  let n := length photos in
  let radius := (1 - INR i / INR n) * TREE_RADIUS_BASE + 2 in
  id p = INR i + 1000 /\ treePos p = photo_tree_pos n i /\
  vx (treePos p) * vx (treePos p) + vz (treePos p) * vz (treePos p) = radius * radius /\
  2 < radius <= 8 /\ -15/2 < vy (treePos p) <= 15/2.
Proof.
  intros H n radius. unfold photo_particles in H.
  apply nth_error_map_seq in H as [Hi ->]. cbn [id treePos].
  pose proof (INR_div_bounds i n Hi) as Ht.
  subst radius n. unfold photo_tree_pos, TREE_RADIUS_BASE, TREE_HEIGHT. cbv zeta. cbn [vx vy vz].
  split; [reflexivity|]. split; [reflexivity|].
  split; [apply sin_cos_circle|]. lra.
Qed.

(** X19: later photos sit strictly lower on the tree. *)
Theorem photo_tree_slots_descend (n i j : nat) :
  (i < j < n)%nat -> vy (photo_tree_pos n j) < vy (photo_tree_pos n i).
Proof.
  intros Hij. unfold photo_tree_pos, TREE_HEIGHT. cbn [vy].
  assert (Hn : 0 < INR n) by (apply lt_0_INR; lia).
  assert (Hl : INR i < INR j) by (apply lt_INR; lia).
  assert (INR i / INR n < INR j / INR n).
  { unfold Rdiv. apply Rmult_lt_compat_r; [apply Rinv_0_lt_compat; exact Hn|exact Hl]. }
  lra.
Qed.

(** X20: every photo particle starts at the origin with scale 1, and its scatter position lies in [[-7.5, 7.5) x [-7.5, 7.5) x [-5, 5)]. *)
Theorem photo_scatter_in_box (photos : list String.string) (rnd : nat -> R) :
  (forall k, 0 <= rnd k < 1) ->
  Forall (fun p => photo_box (scatterPos p) /\ initialPos p = origin /\ scale p = 1)
         (photo_particles photos rnd).
Proof.
  intros Hr. unfold photo_particles. apply Forall_map, Forall_forall. intros i _.
  cbn [scatterPos initialPos scale]. split; [now apply photo_scatter_draw_box|auto].
Qed.

Lemma length_shuffle {A} (rnd : nat -> R) (l : list A) :
  (forall k, 0 <= rnd k < 1) -> length (shuffle rnd l) = length l.
Proof. intros Hr. apply Permutation_length, shuffle_perm, Hr. Qed.

Lemma reshuffle_effect_cons (mode : AppState) (rnd_shuffle rnd_scatter : nat -> R)
    (prev : list ParticleData) :
  prev <> [] ->
  reshuffle_effect mode rnd_shuffle rnd_scatter prev =
    let n := length prev in
    match mode with
    | TREE =>
        map (fun '(p, v) => with_treePos p v)
            (combine prev (shuffle rnd_shuffle (map (photo_tree_pos n) (seq 0 n))))
    | SCATTER =>
        map (fun '(p, i) => with_scatterPos p (photo_scatter_draw rnd_scatter i))
            (combine prev (seq 0 n))
    | ZOOM => prev
    end.
Proof. destruct prev; [congruence|reflexivity]. Qed.

(** X21: entering [TREE] reassigns the photos a permutation of the tree slots and keeps their ids and scatter positions. *)
Theorem reshuffle_tree_permutes (rnd_shuffle rnd_scatter : nat -> R) (prev : list ParticleData) :
  (forall k, 0 <= rnd_shuffle k < 1) ->
  let next := reshuffle_effect TREE rnd_shuffle rnd_scatter prev in
  map id next = map id prev /\ map scatterPos next = map scatterPos prev /\
  Permutation (map treePos next) (map (photo_tree_pos (length prev)) (seq 0 (length prev))).
Proof.
  intros Hr next. subst next.
  destruct prev as [|p0 ps]; [repeat split; constructor|].
  rewrite reshuffle_effect_cons by discriminate. cbv zeta.
  set (prev := p0 :: ps).
  set (sh := shuffle rnd_shuffle (map (photo_tree_pos (length prev)) (seq 0 (length prev)))).
  assert (Hsh : Permutation sh (map (photo_tree_pos (length prev)) (seq 0 (length prev))))
    by (apply shuffle_perm, Hr).
  assert (Hlen : length prev = length sh).
  { rewrite (Permutation_length Hsh), length_map, length_seq. reflexivity. }
  rewrite !map_map.
  split; [|split].
  - rewrite (map_ext _ (fun pv => id (fst pv))) by (intros [p v]; reflexivity).
    rewrite <- (map_map fst id), map_fst_combine by exact Hlen. reflexivity.
  - rewrite (map_ext _ (fun pv => scatterPos (fst pv))) by (intros [p v]; reflexivity).
    rewrite <- (map_map fst scatterPos), map_fst_combine by exact Hlen. reflexivity.
  - rewrite (map_ext _ snd) by (intros [p v]; reflexivity).
    rewrite map_snd_combine by exact Hlen. exact Hsh.
Qed.

(** X22: entering [SCATTER] redraws the photos' scatter positions inside the scatter box and keeps ids and tree slots; [ZOOM] changes nothing. *)
Theorem reshuffle_scatter_redraws (rnd_shuffle rnd_scatter : nat -> R) (prev : list ParticleData) :
  (forall k, 0 <= rnd_scatter k < 1) ->
  let next := reshuffle_effect SCATTER rnd_shuffle rnd_scatter prev in
  map id next = map id prev /\ map treePos next = map treePos prev /\
  Forall photo_box (map scatterPos next) /\
  reshuffle_effect ZOOM rnd_shuffle rnd_scatter prev = prev.
Proof.
  intros Hr next. subst next.
  destruct prev as [|p0 ps]; [repeat split; constructor|].
  rewrite !reshuffle_effect_cons by discriminate. cbv zeta.
  set (prev := p0 :: ps).
  assert (Hlen : length prev = length (seq 0 (length prev))) by (rewrite length_seq; reflexivity).
  rewrite !map_map.
  split; [|split; [|split]].
  - rewrite (map_ext _ (fun pi => id (fst pi))) by (intros [p i]; reflexivity).
    rewrite <- (map_map fst id), map_fst_combine by exact Hlen. reflexivity.
  - rewrite (map_ext _ (fun pi => treePos (fst pi))) by (intros [p i]; reflexivity).
    rewrite <- (map_map fst treePos), map_fst_combine by exact Hlen. reflexivity.
  - rewrite (map_ext _ (fun pi => photo_scatter_draw rnd_scatter (snd pi))) by (intros [p i]; reflexivity).
    apply Forall_map, Forall_forall. intros [p i] _. now apply photo_scatter_draw_box.
  - reflexivity.
Qed.

Lemma ornament_type_draw (r : R) :
  0 <= r < 1 ->
  js_index types (js_floor (r * INR (length types))) = Some SPHERE \/
  js_index types (js_floor (r * INR (length types))) = Some CUBE \/
  js_index types (js_floor (r * INR (length types))) = Some CYLINDER.
Proof.
  intros Hr. replace (INR (length types)) with 3 by (simpl; lra).
  unfold js_floor. destruct (base_Int_part (r * 3)) as [Hle Hgt].
  assert (Hlt : IZR (Int_part (r * 3)) < IZR 3) by lra.
  assert (Hge : IZR (-1) < IZR (Int_part (r * 3))) by lra.
  apply lt_IZR in Hlt. apply lt_IZR in Hge.
  assert (Hz : (Int_part (r * 3) = 0 \/ Int_part (r * 3) = 1 \/ Int_part (r * 3) = 2)%Z) by lia.
  destruct Hz as [Hz|[Hz|Hz]]; rewrite Hz; unfold js_index; simpl; auto.
Qed.

Lemma nth_error_ornament (rnd : nat -> R) (i : nat) (tp : option ParticleType * ParticleData) :
  nth_error (ornament_particles rnd) i = Some tp -> (i < PARTICLE_COUNT)%nat /\ tp = ornament_particle rnd i.
Proof. apply nth_error_map_seq. Qed.

Lemma ornament_layout_spec (rnd : nat -> R) :
  (forall k, 0 <= rnd k < 1) ->
  length (ornament_particles rnd) = PARTICLE_COUNT /\
  Forall (fun tp => ornament_typed tp /\ initialPos (snd tp) = scatterPos (snd tp) /\
                    ornament_box (scatterPos (snd tp)) /\
                    1/10 <= scale (snd tp) < 4/10)
         (ornament_particles rnd).
Proof.
  intros Hr. split; [unfold ornament_particles; rewrite length_map, length_seq; reflexivity|].
  unfold ornament_particles. apply Forall_map, Forall_forall. intros i _.
  unfold ornament_particle, ornament_typed, ornament_box, SCATTER_RADIUS. cbv zeta.
  cbn [fst snd initialPos scatterPos scale vx vy vz].
  pose proof (Hr (9 * i + 1)%nat). pose proof (Hr (9 * i + 2)%nat).
  pose proof (Hr (9 * i + 3)%nat). pose proof (Hr (9 * i + 5)%nat).
  split; [apply ornament_type_draw, Hr|].
  split; [reflexivity|]. lra.
Qed.

(** X24: ornament [i] has id [i] and a tree slot at height [t * 15 - 7.5] in [[-7.5, 7.5)], with [t = i / 400], at a horizontal radius between 0.3 and 1 times [(1 - t) * 6]. *)
Theorem ornament_tree_slot (rnd : nat -> R) (i : nat) (ty : option ParticleType) (p : ParticleData) :
  (forall k, 0 <= rnd k < 1) ->
  nth_error (ornament_particles rnd) i = Some (ty, p) ->
  let t := INR i / INR PARTICLE_COUNT in
  let maxRadius := (1 - t) * TREE_RADIUS_BASE in
  id p = INR i /\ vy (treePos p) = t * TREE_HEIGHT - TREE_HEIGHT / 2 /\
  -15/2 <= vy (treePos p) < 15/2 /\
  exists rJitter,
    vx (treePos p) * vx (treePos p) + vz (treePos p) * vz (treePos p) = rJitter * rJitter /\
    3/10 * maxRadius <= rJitter < maxRadius.
Proof.
  intros Hr H t maxRadius. apply nth_error_ornament in H as [Hi Hp].
  pose proof (INR_div_bounds i PARTICLE_COUNT Hi) as Ht.
  fold t in Ht.
  unfold ornament_particle in Hp. cbv zeta in Hp. fold t in Hp. injection Hp as _ ->.
  cbn [id treePos vx vy vz]. unfold TREE_HEIGHT.
  split; [reflexivity|]. split; [reflexivity|]. split; [lra|].
  eexists. split; [apply sin_cos_circle|].
  subst maxRadius. unfold TREE_RADIUS_BASE in *.
  match goal with |- context [sqrt (rnd ?k)] => pose proof (Hr k) as H0; set (r0 := rnd k) in * end.
  assert (Hs : 0 <= sqrt r0 < 1).
  { split; [apply sqrt_pos|]. rewrite <- sqrt_1. apply sqrt_lt_1_alt. lra. }
  assert (0 < (1 - t) * 6) by lra. nra.
Qed.

Lemma split_fold (ps : list (option ParticleType * ParticleData)) (s c cyl : list ParticleData) :
  fold_left split_step ps (s, c, cyl) =
    (s ++ spheres_of ps, c ++ cubes_of ps, cyl ++ cylinders_of ps).
Proof.
  revert s c cyl; induction ps as [|[ty p] ps IH]; intros s c cyl.
  - simpl. rewrite !app_nil_r. reflexivity.
  - simpl. unfold spheres_of, cubes_of, cylinders_of in *.
    destruct ty as [[| | |]|]; simpl; rewrite IH, <- ?app_assoc; reflexivity.
Qed.

Lemma split_types_filters (ps : list (option ParticleType * ParticleData)) :
  split_types ps = (spheres_of ps, cubes_of ps, cylinders_of ps).
Proof. unfold split_types. apply split_fold. Qed.

Lemma groups_permutation (ps : list (option ParticleType * ParticleData)) :
  Forall ornament_typed ps ->
  Permutation (spheres_of ps ++ cubes_of ps ++ cylinders_of ps) (map snd ps).
Proof.
  induction ps as [|[ty p] ps IH]; intros Hf; [constructor|].
  inversion Hf as [|tp0 ps0 Ht Hps]; subst.
  unfold spheres_of, cubes_of, cylinders_of in *. specialize (IH Hps).
  destruct Ht as [Ht|[Ht|Ht]]; simpl in Ht; subst ty; simpl.
  - apply perm_skip, IH.
  - apply perm_trans with (p :: map snd (filter (has_type SPHERE) ps) ++
        map snd (filter (has_type CUBE) ps) ++ map snd (filter (has_type CYLINDER) ps)).
    + symmetry. apply Permutation_middle.
    + apply perm_skip, IH.
  - rewrite app_assoc.
    apply perm_trans with (p :: (map snd (filter (has_type SPHERE) ps) ++
        map snd (filter (has_type CUBE) ps)) ++ map snd (filter (has_type CYLINDER) ps)).
    + symmetry. apply Permutation_middle.
    + apply perm_skip. rewrite <- app_assoc. apply IH.
Qed.

(** X25: the sphere, cube and cylinder groups partition the ornaments: each ornament is in exactly one group. *)
Theorem ornament_groups_partition (rnd : nat -> R) :
  (forall k, 0 <= rnd k < 1) ->
  let '(spheres, cubes, cylinders) := split_types (ornament_particles rnd) in
  Permutation (spheres ++ cubes ++ cylinders) (map snd (ornament_particles rnd)) /\
  (length spheres + length cubes + length cylinders = PARTICLE_COUNT)%nat.
Proof.
  intros Hr. rewrite split_types_filters.
  destruct (ornament_layout_spec rnd Hr) as [Hlen Hall].
  assert (Hp := groups_permutation (ornament_particles rnd)
                  (Forall_impl _ (fun tp H => proj1 H) Hall)).
  split; [exact Hp|].
  apply Permutation_length in Hp. rewrite !length_app, length_map, Hlen in Hp. lia.
Qed.

Lemma vnorm_scale (k : R) (v : Vec3) :
  vnorm (mkVec3 (k * vx v) (k * vy v) (k * vz v)) = Rabs k * vnorm v.
Proof.
  unfold vnorm. cbn [vx vy vz].
  replace (k * vx v * (k * vx v) + k * vy v * (k * vy v) + k * vz v * (k * vz v))
    with ((k * k) * (vx v * vx v + vy v * vy v + vz v * vz v)) by ring.
  rewrite sqrt_mult_alt by apply Rle_0_sqr.
  f_equal. apply sqrt_Rsqr_abs.
Qed.

(** X26: in [TREE] the camera circles the axis at horizontal radius 25 while its height decays by the factor [1 - delta]; in [ZOOM] the camera does not move. *)
Theorem camera_tree_orbit (hand : HandTrackingResult) (time delta : R) (cam : Vec3) :
  let c := camera_frame TREE hand time delta cam in
  vx c * vx c + vz c * vz c = 25 * 25 /\ vy c = (1 - delta) * vy cam /\
  camera_frame ZOOM hand time delta cam = cam.
Proof.
  cbv zeta. unfold camera_frame, lerp. cbn [vx vy vz].
  split; [|split; [ring|reflexivity]].
  rewrite (Rmult_comm (sin _)), (Rmult_comm (cos _)).
  rewrite Rplus_comm. apply sin_cos_circle.
Qed.

(** X27: in [SCATTER], with the hand height in [[0, 1]], the camera moves toward a point on the radius-25 circle at height in [[-5, 5]], and its distance shrinks by the factor [|1 - 2 delta|]. *)
Theorem camera_scatter_approach (hand : HandTrackingResult) (time delta : R) (cam : Vec3) :
  0 <= snd (position hand) <= 1 ->
  exists desired : Vec3,
    vx desired * vx desired + vz desired * vz desired = 25 * 25 /\
    -5 <= vy desired <= 5 /\
    vnorm (vsub desired (camera_frame SCATTER hand time delta cam)) =
      Rabs (1 - 2 * delta) * vnorm (vsub desired cam).
Proof.
  intros Hy. unfold camera_frame. destruct (position hand) as [hx hy]. cbn [snd] in Hy.
  set (a := (hx - 1/2) * 10 * (1/2)).
  exists (mkVec3 (sin a * 25) (- ((hy - 1/2) * 5) * 2) (cos a * 25)).
  cbn [vx vy vz]. split; [|split; [lra|]].
  - rewrite (Rmult_comm (sin _)), (Rmult_comm (cos _)), Rplus_comm. apply sin_cos_circle.
  - rewrite <- vnorm_scale. unfold vsub, vlerp. cbn [vx vy vz]. f_equal. f_equal; ring.
Qed.

(** X16: when every draw of [Math.random()] lies in [[0, 1)], [shuffle] returns a permutation of its input. *)
Theorem shuffle_permutation {A} (rnd : nat -> R) (array : list A) :
  (forall k, 0 <= rnd k < 1) -> Permutation (shuffle rnd array) array.
Proof. apply shuffle_perm. Qed.

(** X23: there are [PARTICLE_COUNT] ornaments, each a sphere, cube or cylinder, starting at its scatter position in [[-20, 20) x [-15, 15) x [-20, 20)] with scale in [[0.1, 0.4)]. *)
Theorem ornament_layout (rnd : nat -> R) :
  (forall k, 0 <= rnd k < 1) ->
  length (ornament_particles rnd) = PARTICLE_COUNT /\
  Forall (fun tp => ornament_typed tp /\ initialPos (snd tp) = scatterPos (snd tp) /\
                    ornament_box (scatterPos (snd tp)) /\
                    1/10 <= scale (snd tp) < 4/10)
         (ornament_particles rnd).
Proof. apply ornament_layout_spec. Qed.

Lemma length_photo_particles (photos : list String.string) (rnd : nat -> R) :
  length (photo_particles photos rnd) = length photos.
Proof. unfold photo_particles. now rewrite length_map, length_seq. Qed.

(** X28: an index the selection frame reports over the photo particles always names an existing photo. *)
Theorem selection_index_in_photos (project : Vec3 -> R * R) (mode : AppState)
    (hand : HandTrackingResult) (photos : list String.string) (rnd : nat -> R) :
  mode <> ZOOM -> isPresent hand = true ->
  forall i, select_frame project mode hand (photo_particles photos rnd) = Some i ->
  (0 <= i < Z.of_nat (length photos))%Z.
Proof.
  intros Hm Hp i Hi.
  destruct (select_frame_spec project mode hand (photo_particles photos rnd) Hm Hp) as [_ Hs].
  destruct (Hs i Hi) as (j & p & -> & Hn & _).
  assert (Hj : (j < length (photo_particles photos rnd))%nat).
  { apply nth_error_Some. congruence. }
  rewrite length_photo_particles in Hj. lia.
Qed.

(** ** Witnesses of the further properties *)

Lemma stab_history_bounded_witness :
  (length (gestureHistory stab_init) <= 5)%nat /\
  (length (gestureHistory (stab_run stab_init [Some (FIST, 0%R, 0%R); None; Some (OPEN_PALM, 1%R, 1%R)])) <= 5)%nat.
Proof.
  assert (H : (length (gestureHistory stab_init) <= 5)%nat) by (simpl; lia).
  split; [exact H|]. exact (stab_history_bounded stab_init _ H).
Defined.

Lemma stab_position_in_box_witness :
  in_box 0 1 (prevPosition stab_init) /\
  Forall (frame_in_box 0 1) [Some (FIST, 1, 0); None] /\
  in_box 0 1 (prevPosition (stab_run stab_init [Some (FIST, 1, 0); None])).
Proof.
  assert (H1 : in_box 0 1 (prevPosition stab_init)) by (unfold in_box; simpl; lra).
  assert (H2 : Forall (frame_in_box 0 1) [Some (FIST, 1, 0); None])
    by (repeat constructor; simpl; lra).
  split; [exact H1|]. split; [exact H2|].
  exact (stab_position_in_box 0 1 stab_init _ H1 H2).
Defined.

Lemma onResults_first_hand_witness :
  length hand21 = 21%nat /\
  onResults true stab_init (Some [hand21]) =
    let '(s', r) :=
      stabilize stab_init
        (Some (classify_spec (folded_spec hand21 8 6) (folded_spec hand21 12 10)
                             (folded_spec hand21 16 14) (folded_spec hand21 20 18),
               1 - x (nth 9 hand21 (mkPoint 0 0)), y (nth 9 hand21 (mkPoint 0 0)))) in
    Some (s', Some r).
Proof.
  assert (H : length hand21 = 21%nat) by reflexivity.
  split; [exact H|]. exact (onResults_first_hand stab_init hand21 [] H).
Defined.

Lemma onResults_short_hand_throws_witness :
  (length [mkPoint 0 0] < 21)%nat /\ onResults true stab_init (Some [[mkPoint 0 0]]) = None.
Proof.
  assert (H : (length [mkPoint 0 0] < 21)%nat) by (simpl; lia).
  split; [exact H|]. exact (onResults_short_hand_throws stab_init [mkPoint 0 0] [] H).
Defined.

Lemma onResults_position_in_unit_square_witness :
  exists (s' : Stabilizer) (r : HandTrackingResult),
    in_box 0 1 (prevPosition stab_init) /\
    Forall (Forall (fun p => 0 <= x p <= 1 /\ 0 <= y p <= 1))
      [set_nth 9 (mkPoint (3/10) (7/10)) hand21] /\
    onResults true stab_init (Some [set_nth 9 (mkPoint (3/10) (7/10)) hand21]) = Some (s', Some r) /\
    prevPosition s' = position r /\ in_box 0 1 (position r).
Proof.
  assert (H1 : in_box 0 1 (prevPosition stab_init)) by (unfold in_box; simpl; lra).
  assert (H2 : Forall (Forall (fun p => 0 <= x p <= 1 /\ 0 <= y p <= 1))
                 [set_nth 9 (mkPoint (3/10) (7/10)) hand21]).
  { constructor; [|constructor]. apply Forall_forall. intros p Hp. simpl in Hp.
    repeat destruct Hp as [<-|Hp]; try contradiction; simpl; lra. }
  assert (H3 : exists s' r, onResults true stab_init
                 (Some [set_nth 9 (mkPoint (3/10) (7/10)) hand21]) = Some (s', Some r)).
  { unfold onResults, raw_frame.
    rewrite (detectGesture_21 (set_nth 9 (mkPoint (3/10) (7/10)) hand21)) by reflexivity.
    change (nth_error (set_nth 9 (mkPoint (3/10) (7/10)) hand21) 9) with (Some (mkPoint (3/10) (7/10))).
    cbv beta iota zeta. destruct (stabilize _ _) as [s' r]. exists s', r. reflexivity. }
  destruct H3 as (s' & r & H3). exists s', r.
  split; [exact H1|]. split; [exact H2|]. split; [exact H3|].
  exact (onResults_position_in_unit_square stab_init s' _ r H1 H2 H3).
Defined.

Lemma zoom_entry_witness :
  appState (mkApp SCATTER [String.EmptyString] true NONE 0 (present NONE)) <> ZOOM /\
  appState (onHandUpdateProxy (mkApp SCATTER [String.EmptyString] true NONE 0 (present NONE))
                              (present TWO_FINGERS)) = ZOOM /\
  appState (mkApp SCATTER [String.EmptyString] true NONE 0 (present NONE)) = SCATTER.
Proof.
  assert (H1 : appState (mkApp SCATTER [String.EmptyString] true NONE 0 (present NONE)) <> ZOOM)
    by discriminate.
  assert (H2 : appState (onHandUpdateProxy (mkApp SCATTER [String.EmptyString] true NONE 0 (present NONE))
                              (present TWO_FINGERS)) = ZOOM) by reflexivity.
  split; [exact H1|]. split; [exact H2|].
  exact (proj1 (zoom_entry _ _ H1 H2)).
Defined.

Lemma zoom_exit_witness :
  appState (mkApp ZOOM [] true TWO_FINGERS 0 (present TWO_FINGERS)) = ZOOM /\
  appState (onHandUpdateProxy (mkApp ZOOM [] true TWO_FINGERS 0 (present TWO_FINGERS))
                              (present FIST)) <> ZOOM /\
  isPresent (present FIST) = true.
Proof.
  assert (H1 : appState (mkApp ZOOM [] true TWO_FINGERS 0 (present TWO_FINGERS)) = ZOOM)
    by reflexivity.
  assert (H2 : appState (onHandUpdateProxy (mkApp ZOOM [] true TWO_FINGERS 0 (present TWO_FINGERS))
                              (present FIST)) <> ZOOM) by discriminate.
  split; [exact H1|]. split; [exact H2|].
  exact (proj1 (zoom_exit _ _ H1 H2)).
Defined.

Lemma hand_loss_keeps_mode_witness :
  Forall (fun r => isPresent r = false) [mkResult FIST (0, 0) false; mkResult OPEN_PALM (1, 1) false] /\
  appState (proxy_run app_init [mkResult FIST (0, 0) false; mkResult OPEN_PALM (1, 1) false]) =
    appState app_init.
Proof.
  assert (H : Forall (fun r => isPresent r = false)
                [mkResult FIST (0, 0) false; mkResult OPEN_PALM (1, 1) false])
    by (repeat constructor).
  split; [exact H|]. exact (hand_loss_keeps_mode app_init _ H).
Defined.

Lemma upload_enables_zoom_witness :
  appState (onHandUpdateProxy
              (handlePhotoUpload (mkApp SCATTER [] true NONE 0 (present NONE)) (Some [String.EmptyString]))
              (present TWO_FINGERS)) = ZOOM.
Proof.
  apply (upload_enables_zoom (mkApp SCATTER [] true NONE 0 (present NONE)) [String.EmptyString]
           (present TWO_FINGERS)); [reflexivity|discriminate|reflexivity|reflexivity|discriminate].
Defined.

Lemma shuffle_permutation_witness :
  (forall k, 0 <= (fun _ : nat => 1/2) k < 1) /\
  Permutation (shuffle (fun _ => 1/2) [1%nat; 2%nat; 3%nat]) [1%nat; 2%nat; 3%nat].
Proof.
  assert (H : forall k, 0 <= (fun _ : nat => 1/2) k < 1) by (intros; lra).
  split; [exact H|]. exact (shuffle_permutation _ _ H).
Defined.

Lemma photo_tree_slot_witness :
  nth_error (photo_particles [String.EmptyString] (fun _ => 1/2)) 0 =
    Some (mkParticle (INR 0 + 1000) origin (photo_tree_pos 1 0)
                     (photo_scatter_draw (fun _ => 1/2) 0) 1 origin) /\
  treePos (mkParticle (INR 0 + 1000) origin (photo_tree_pos 1 0)
                      (photo_scatter_draw (fun _ => 1/2) 0) 1 origin) = photo_tree_pos 1 0.
Proof.
  assert (H : nth_error (photo_particles [String.EmptyString] (fun _ => 1/2)) 0 =
    Some (mkParticle (INR 0 + 1000) origin (photo_tree_pos 1 0)
                     (photo_scatter_draw (fun _ => 1/2) 0) 1 origin)) by reflexivity.
  split; [exact H|]. exact (proj1 (proj2 (photo_tree_slot _ _ _ _ H))).
Defined.

Lemma photo_tree_slots_descend_witness :
  (0 < 1 < 3)%nat /\ vy (photo_tree_pos 3 1) < vy (photo_tree_pos 3 0).
Proof.
  assert (H : (0 < 1 < 3)%nat) by lia.
  split; [exact H|]. exact (photo_tree_slots_descend 3 0 1 H).
Defined.

Lemma photo_scatter_in_box_witness :
  (forall k, 0 <= (fun _ : nat => 1/2) k < 1) /\
  Forall (fun p => photo_box (scatterPos p) /\ initialPos p = origin /\ scale p = 1)
         (photo_particles [String.EmptyString; String.EmptyString] (fun _ => 1/2)).
Proof.
  assert (H : forall k, 0 <= (fun _ : nat => 1/2) k < 1) by (intros; lra).
  split; [exact H|]. exact (photo_scatter_in_box _ _ H).
Defined.

Lemma reshuffle_tree_permutes_witness :
  (forall k, 0 <= (fun _ : nat => 1/2) k < 1) /\
  Permutation
    (map treePos (reshuffle_effect TREE (fun _ => 1/2) (fun _ => 1/2)
       (photo_particles [String.EmptyString; String.EmptyString] (fun _ => 1/2))))
    (map (photo_tree_pos 2) (seq 0 2)).
Proof.
  assert (H : forall k, 0 <= (fun _ : nat => 1/2) k < 1) by (intros; lra).
  split; [exact H|].
  exact (proj2 (proj2 (reshuffle_tree_permutes _ (fun _ => 1/2)
           (photo_particles [String.EmptyString; String.EmptyString] (fun _ => 1/2)) H))).
Defined.

Lemma reshuffle_scatter_redraws_witness :
  (forall k, 0 <= (fun _ : nat => 1/2) k < 1) /\
  Forall photo_box
    (map scatterPos (reshuffle_effect SCATTER (fun _ => 1/2) (fun _ => 1/2)
       (photo_particles [String.EmptyString; String.EmptyString] (fun _ => 0)))).
Proof.
  assert (H : forall k, 0 <= (fun _ : nat => 1/2) k < 1) by (intros; lra).
  split; [exact H|].
  exact (proj1 (proj2 (proj2 (reshuffle_scatter_redraws (fun _ => 1/2) _
           (photo_particles [String.EmptyString; String.EmptyString] (fun _ => 0)) H)))).
Defined.

Lemma ornament_layout_witness :
  (forall k, 0 <= (fun _ : nat => 0) k < 1) /\
  length (ornament_particles (fun _ => 0)) = PARTICLE_COUNT.
Proof.
  assert (H : forall k, 0 <= (fun _ : nat => 0) k < 1) by (intros; lra).
  split; [exact H|]. exact (proj1 (ornament_layout _ H)).
Defined.

Lemma ornament_tree_slot_witness :
  (forall k, 0 <= (fun _ : nat => 0) k < 1) /\
  nth_error (ornament_particles (fun _ => 0)) 1 =
    Some (fst (ornament_particle (fun _ => 0) 1), snd (ornament_particle (fun _ => 0) 1)) /\
  id (snd (ornament_particle (fun _ => 0) 1)) = INR 1.
Proof.
  assert (H : forall k, 0 <= (fun _ : nat => 0) k < 1) by (intros; lra).
  assert (H2 : nth_error (ornament_particles (fun _ => 0)) 1 =
    Some (fst (ornament_particle (fun _ => 0) 1), snd (ornament_particle (fun _ => 0) 1)))
    by reflexivity.
  split; [exact H|]. split; [exact H2|].
  exact (proj1 (ornament_tree_slot _ _ _ _ H H2)).
Defined.

Lemma ornament_groups_partition_witness :
  (forall k, 0 <= (fun _ : nat => 0) k < 1) /\
  let '(spheres, cubes, cylinders) := split_types (ornament_particles (fun _ => 0)) in
  Permutation (spheres ++ cubes ++ cylinders) (map snd (ornament_particles (fun _ => 0))) /\
  (length spheres + length cubes + length cylinders = PARTICLE_COUNT)%nat.
Proof.
  assert (H : forall k, 0 <= (fun _ : nat => 0) k < 1) by (intros; lra).
  split; [exact H|]. exact (ornament_groups_partition _ H).
Defined.

Lemma camera_scatter_approach_witness :
  0 <= snd (position hand_center) <= 1 /\
  exists desired : Vec3,
    vx desired * vx desired + vz desired * vz desired = 25 * 25 /\
    -5 <= vy desired <= 5 /\
    vnorm (vsub desired (camera_frame SCATTER hand_center 0 (1/60) (mkVec3 0 0 25))) =
      Rabs (1 - 2 * (1/60)) * vnorm (vsub desired (mkVec3 0 0 25)).
Proof.
  assert (H : 0 <= snd (position hand_center) <= 1) by (simpl; lra).
  split; [exact H|]. exact (camera_scatter_approach hand_center 0 (1/60) (mkVec3 0 0 25) H).
Defined.

Lemma selection_index_in_photos_witness :
  TREE <> ZOOM /\ isPresent hand_center = true /\
  forall i, select_frame ortho TREE hand_center (photo_particles [String.EmptyString] (fun _ => 1/2)) = Some i ->
  (0 <= i < Z.of_nat (length [String.EmptyString]))%Z.
Proof.
  assert (H1 : TREE <> ZOOM) by discriminate.
  assert (H2 : isPresent hand_center = true) by reflexivity.
  split; [exact H1|]. split; [exact H2|].
  exact (selection_index_in_photos ortho TREE hand_center [String.EmptyString] (fun _ => 1/2) H1 H2).
Defined.
